(** * BunnyCDN storage client: request construction and response mapping

  A shallow embedding of [models/BunnyCDNStorage.js], [models/Checksum.js],
  [models/StorageObject.js] and [models/StorageRegion.js], with the
  properties of path normalization, region resolution, checksum stamping
  and status-to-error mapping. *)

From Stdlib Require Import NArith ZArith Ascii String Strings.Byte Lia.
From stdpp Require Import base option list strings gmap.

Set Warnings "-register-all,-abstract-large-number".

(** ** JavaScript strings

  A JavaScript string is a finite sequence of UTF-16 code units.  A code
  unit is kept as the number it denotes; every function below treats
  the units it does not name uniformly, so no bound on them is needed. *)

Module JsString.

Local Open Scope N_scope.

Definition t := list N.

(** The code units of an ASCII literal of the source. *)
Definition lit (s : string) : t :=
  map N_of_ascii (list_ascii_of_string s).

Definition slash : N := 47%N.
Definition backslash : N := 92%N.

(** WhiteSpace and LineTerminator code points of ECMAScript, the set
    removed by [String.prototype.trim]. *)
Definition isWhiteSpace (u : N) : bool :=
  ((9 <=? u) && (u <=? 13))
  || (u =? 32) || (u =? 160) || (u =? 5760)
  || ((8192 <=? u) && (u <=? 8202))
  || (u =? 8232) || (u =? 8233) || (u =? 8239) || (u =? 8287)
  || (u =? 12288) || (u =? 65279).

Fixpoint trimStart (s : t) : t :=
  match s with
  | [] => []
  | u :: s' => if isWhiteSpace u then trimStart s' else s
  end.

Definition trimEnd (s : t) : t := reverse (trimStart (reverse s)).

(** [s.trim()] *)
Definition trim (s : t) : t := trimEnd (trimStart s).

(** [s.replace(/\\/g, "/")] *)
Definition replaceBackslashes (s : t) : t :=
  (fun u => if u =? backslash then slash else u) <$> s.

(** [s.replace(/^\/+/, "")] *)
Fixpoint stripLeadingSlashes (s : t) : t :=
  match s with
  | [] => []
  | u :: s' => if u =? slash then stripLeadingSlashes s' else s
  end.

(** [s.replace(/\/+/g, "/")]: every maximal run of slashes becomes one
    slash; a slash is dropped exactly when another one follows it. *)
Fixpoint collapseSlashes (s : t) : t :=
  match s with
  | [] => []
  | u :: s' =>
      match s' with
      | v :: _ =>
          if (u =? slash) && (v =? slash) then collapseSlashes s'
          else u :: collapseSlashes s'
      | [] => [u]
      end
  end.

(** [s.startsWith(p)] *)
Fixpoint startsWith (p s : t) : bool :=
  match p, s with
  | [], _ => true
  | _ :: _, [] => false
  | a :: p', b :: s' => (a =? b) && startsWith p' s'
  end.

(** [s.endsWith(p)] *)
Definition endsWith (p s : t) : bool := startsWith (reverse p) (reverse s).

(** [s.includes(p)] *)
Fixpoint includes (p s : t) : bool :=
  startsWith p s ||
  match s with
  | [] => false
  | _ :: s' => includes p s'
  end.

(** [String.prototype.toLowerCase], one code unit at a time.  The table
    covers Basic Latin, Latin-1 and the three code points outside them
    whose lower-case form reaches those blocks (U+0130, U+212A, U+212B);
    the lower-case form of every other unit stays outside Basic Latin
    and is not expanded here. *)
Definition lowerUnit (u : N) : t :=
  if (65 <=? u) && (u <=? 90) then [u + 32]
  else if (192 <=? u) && (u <=? 222) && negb (u =? 215) then [u + 32]
  else if u =? 304 then [105; 775]
  else if u =? 8490 then [107]
  else if u =? 8491 then [229]
  else [u].

Definition toLowerCase (s : t) : t := concat (map lowerUnit s).

(** JavaScript truthiness of a string and of a string-or-null. *)
Definition truthy (s : t) : bool :=
  match s with [] => false | _ :: _ => true end.

Definition truthyOpt (o : option t) : bool :=
  match o with None => false | Some s => truthy s end.

End JsString.

Abbreviation jsstr := JsString.t.
Notation "'js' s" := (JsString.lit s%string) (at level 9, s at level 0, only parsing).

Import JsString.

(** ** Exceptions

    The client throws plain [Error] objects told apart by their message;
    the runtime adds [TypeError] (property access on a nullish value, a
    value that cannot be iterated) and [SyntaxError] (malformed JSON). *)

Inductive ErrorClass := Error | TypeError | SyntaxError | SystemError.

Record JsError := mkError { errorClass : ErrorClass; message : jsstr }.

(** [new Error(msg)] *)
Definition newError (msg : jsstr) : JsError := mkError Error msg.

(** ** models/StorageRegion.js *)

Module StorageRegion.
Definition Falkenstein : jsstr := js "de".
Definition London : jsstr := js "uk".
Definition NewYork : jsstr := js "ny".
Definition LosAngeles : jsstr := js "la".
Definition Singapore : jsstr := js "sg".
Definition Stockholm : jsstr := js "se".
Definition SaoPaulo : jsstr := js "br".
Definition Johannesburg : jsstr := js "jh".
Definition Sydney : jsstr := js "syd".
End StorageRegion.

(** ** The client configuration and its private helpers *)

Record Client := mkClient {
  apiAccessKey : jsstr;
  storageZoneName : jsstr;
  baseAddress : jsstr
}.

(** [#getBaseAddress(mainRegion)] *)
Definition getBaseAddress (mainRegion : jsstr) : jsstr :=
  if bool_decide (mainRegion = js "")
     || bool_decide (toLowerCase mainRegion = js "de")
  then js "https://storage.bunnycdn.com/"
  else js "https://" ++ mainRegion ++ js ".storage.bunnycdn.com/".

(** [constructor(storageZoneName, apiAccessKey, mainRegion = "de")]; an
    omitted region is [None]. *)
Definition newClient (zone key : jsstr) (mainRegion : option jsstr) : Client :=
  {| apiAccessKey := key;
     storageZoneName := zone;
     baseAddress := getBaseAddress (default (js "de") mainRegion) |}.

Definition pathValidationError (c : Client) : JsError :=
  newError (js "Path validation failed. File path must begin with /"
            ++ storageZoneName c ++ js "/.").

(** The three clean-up steps of the first line of [#normalizePath]. *)
Definition cleanPath (path : jsstr) : jsstr :=
  stripLeadingSlashes (replaceBackslashes (trim path)).

(** [#normalizePath(path, isDirectory = false)] *)
Definition normalizePath (c : Client) (path : jsstr) (isDirectory : bool)
  : JsError + jsstr :=
  let path := cleanPath path in
  if negb (startsWith (storageZoneName c ++ js "/") path)
  then inl (pathValidationError c)
  else
    let path :=
      if isDirectory
      then (if endsWith (js "/") path then path else path ++ js "/")
      else path in
    inr (collapseSlashes path).

(** [#mapResponseToException(statusCode, path)] *)
Definition mapResponseToException (c : Client) (statusCode : Z) (path : jsstr)
  : JsError :=
  if (statusCode =? 404)%Z then newError (js "File not found: " ++ path)
  else if (statusCode =? 400)%Z then
    newError (js "Unable to upload file. Invalid path specified")
  else if (statusCode =? 401)%Z then
    newError (js "Unauthorized access to storage zone: " ++ storageZoneName c)
  else newError (js "An unknown error has occurred during the request.").

(** ** SHA-256 (FIPS 180-4), the digest behind [crypto.createHash("sha256")]

    Words are numbers below [2^32]; octets are numbers below [2^8]. *)

Module Sha256.

Local Open Scope N_scope.

Definition mask32 : N := 0xffffffff.

Definition add32 (x y : N) : N := N.land (x + y) mask32.

Definition rotr (n x : N) : N :=
  N.lor (N.shiftr x n) (N.land (N.shiftl x (32 - n)) mask32).

Definition xor3 (x y z : N) : N := N.lxor (N.lxor x y) z.

Definition Ch (x y z : N) : N :=
  N.lxor (N.land x y) (N.land (N.lxor x mask32) z).

Definition Maj (x y z : N) : N :=
  xor3 (N.land x y) (N.land x z) (N.land y z).

Definition bigSigma0 (x : N) : N := xor3 (rotr 2 x) (rotr 13 x) (rotr 22 x).
Definition bigSigma1 (x : N) : N := xor3 (rotr 6 x) (rotr 11 x) (rotr 25 x).
Definition smallSigma0 (x : N) : N := xor3 (rotr 7 x) (rotr 18 x) (N.shiftr x 3).
Definition smallSigma1 (x : N) : N := xor3 (rotr 17 x) (rotr 19 x) (N.shiftr x 10).

(** The constants are taken from their definition rather than from a
    table: the round constants are the first 32 bits of the fractional
    parts of the cube roots of the first 64 primes, the initial hash value
    those of the square roots of the first 8 primes. *)

Definition isPrime (n : N) : bool :=
  forallb (fun d => negb (n mod N.of_nat d =? 0)) (seq 2 (N.to_nat n - 2)).

Definition primes : list N :=
  filter (fun n => Is_true (isPrime n)) (N.of_nat <$> seq 2 310).

(** The largest [r] below [2^bits] with [r^3 <= n], found bit by bit. *)
Fixpoint cubeRoot (bits : nat) (n r : N) : N :=
  match bits with
  | O => r
  | S bits' =>
      let r' := r + N.shiftl 1 (N.of_nat bits') in
      cubeRoot bits' n (if r' * r' * r' <=? n then r' else r)
  end.

Definition K : list N :=
  (fun p => N.land (cubeRoot 36 (N.shiftl p 96) 0) mask32) <$> primes.

Definition initialHash : list N :=
  (fun p => N.land (N.sqrt (N.shiftl p 64)) mask32) <$> firstn 8 primes.

(** Big-endian octets of a number, [n] of them. *)
Fixpoint bigEndian (n : nat) (x : N) : list N :=
  match n with
  | O => []
  | S n' => bigEndian n' (N.shiftr x 8) ++ [N.land x 0xff]
  end.

(** Message padding: one [0x80], zeros up to 56 modulo 64, then the bit
    length on 64 bits. *)
Definition pad (msg : list N) : list N :=
  let len := N.of_nat (length msg) in
  let zeros := (119 - len mod 64) mod 64 in
  msg ++ [0x80] ++ repeat 0 (N.to_nat zeros) ++ bigEndian 8 (8 * len).

Fixpoint toWords (octets : list N) : list N :=
  match octets with
  | a :: b :: c :: d :: rest =>
      N.lor (N.shiftl a 24) (N.lor (N.shiftl b 16) (N.lor (N.shiftl c 8) d))
      :: toWords rest
  | _ => []
  end.

(** The message schedule, latest word first: [extend n w] adds [n] words
    to the schedule [w]. *)
Fixpoint extend (n : nat) (w : list N) : list N :=
  match n with
  | O => w
  | S n' =>
      let next :=
        add32 (add32 (smallSigma1 (nth 1 w 0)) (nth 6 w 0))
              (add32 (smallSigma0 (nth 14 w 0)) (nth 15 w 0)) in
      extend n' (next :: w)
  end.

Definition schedule (block : list N) : list N :=
  rev (extend 48 (rev block)).

Record Vars := mkVars { va : N; vb : N; vc : N; vd : N;
                        ve : N; vf : N; vg : N; vh : N }.

Definition round (v : Vars) (kw : N * N) : Vars :=
  let t1 := add32 (add32 (add32 (vh v) (bigSigma1 (ve v)))
                         (add32 (Ch (ve v) (vf v) (vg v)) (fst kw))) (snd kw) in
  let t2 := add32 (bigSigma0 (va v)) (Maj (va v) (vb v) (vc v)) in
  {| va := add32 t1 t2; vb := va v; vc := vb v; vd := vc v;
     ve := add32 (vd v) t1; vf := ve v; vg := vf v; vh := vg v |}.

Definition ofList (h : list N) : Vars :=
  {| va := nth 0 h 0; vb := nth 1 h 0; vc := nth 2 h 0; vd := nth 3 h 0;
     ve := nth 4 h 0; vf := nth 5 h 0; vg := nth 6 h 0; vh := nth 7 h 0 |}.

Definition toList (v : Vars) : list N :=
  [va v; vb v; vc v; vd v; ve v; vf v; vg v; vh v].

(** One 16-word block folded into the hash value. *)
Definition compress (h : list N) (block : list N) : list N :=
  let v := fold_left round (combine K (schedule block)) (ofList h) in
  map (fun p => add32 (fst p) (snd p)) (combine h (toList v)).

Fixpoint blocks (fuel : nat) (h : list N) (words : list N) : list N :=
  match fuel with
  | O => h
  | S fuel' =>
      match words with
      | [] => h
      | _ => blocks fuel' (compress h (firstn 16 words)) (skipn 16 words)
      end
  end.

(** The 32 octets of the digest. *)
Definition digest (msg : list N) : list N :=
  let words := toWords (pad msg) in
  concat (map (bigEndian 4) (blocks (length words) initialHash words)).

End Sha256.

(** ** Buffers and [digest("hex")] *)

Abbreviation Buffer := (list byte).

Definition hexDigit (d : N) : N :=
  if (d <? 10)%N then (48 + d)%N else (87 + d)%N.

(** [buf.toString("hex")]: two lower-case digits for each octet. *)
Definition toHex (octets : list N) : jsstr :=
  concat (map (fun o => [hexDigit (N.shiftr o 4); hexDigit (N.land o 15)]) octets).

Definition sha256Hex (data : Buffer) : jsstr :=
  toHex (Sha256.digest (map Byte.to_N data)).

Definition bytesOf (s : string) : Buffer := list_byte_of_string s.

(** ** Streams, JSON values, requests and responses *)

(** A Node readable stream, by what reading it yields: the chunks it
    delivers and, when it breaks off, the error it emits after them. *)
Record Readable := mkReadable {
  chunks : list Buffer;
  failure : option JsError
}.

(** [new PassThrough().end(data)]: the data comes out as one chunk, an
    empty buffer as none. *)
Definition passThroughEnd (data : Buffer) : Readable :=
  {| chunks := match data with [] => [] | _ => [data] end; failure := None |}.

Definition contents (r : Readable) : Buffer := concat (chunks r).

(** What the variable [stream] of [upload] can hold: a readable stream, or
    an object that only has a truthy [pipe] property. *)
Inductive StreamValue :=
| Stream (r : Readable)
| PipeObject.

(** The values a caller can pass as [input] to [upload]. *)
Inductive JsInput :=
| InString (localPath : jsstr)
| InStream (r : Readable)
| InPipeObject
| InOther
| InNull
| InUndefined.

(** [typeof input === "string"], with the string when it holds. *)
Definition asString (input : JsInput) : option jsstr :=
  match input with InString localPath => Some localPath | _ => None end.

(** [stream = input] *)
Definition asStream (input : JsInput) : StreamValue :=
  match input with InStream r => Stream r | _ => PipeObject end.

(** Truthiness of [input.pipe]; reading a property of [null] or
    [undefined] throws. *)
Definition pipeOf (input : JsInput) : JsError + bool :=
  match input with
  | InString _ => inr false
  | InStream _ => inr true
  | InPipeObject => inr true
  | InOther => inr false
  | InNull =>
      inl (mkError TypeError (js "Cannot read properties of null (reading 'pipe')"))
  | InUndefined =>
      inl (mkError TypeError (js "Cannot read properties of undefined (reading 'pipe')"))
  end.

(** A parsed JSON document; a number is kept as its 64-bit pattern. *)
Inductive Json :=
| JNull
| JBool (b : bool)
| JNumber (bits : N)
| JString (s : jsstr)
| JArray (items : list Json)
| JObject (fields : list (string * Json)).

(** A JavaScript value read from a JSON document: [None] is [undefined]. *)
Abbreviation JsValue := (option Json).

Fixpoint assoc (key : string) (fields : list (string * Json)) : JsValue :=
  match fields with
  | [] => None
  | (k, v) :: rest => if String.eqb k key then Some v else assoc key rest
  end.

(** [item.key] *)
Definition prop (item : Json) (key : string) : JsError + JsValue :=
  match item with
  | JNull =>
      inl (mkError TypeError
             (js "Cannot read properties of null (reading '" ++ lit key ++ js "')"))
  | JObject fields => inr (assoc key fields)
  | _ => inr None
  end.

Record Request := mkRequest {
  url : jsstr;
  method : string;
  headers : gmap string jsstr;
  body : option StreamValue;
  duplex : option string
}.

Record Response := mkResponse {
  status : Z;
  json : JsError + Json;
  responseBody : Readable
}.

(** [response.ok] *)
Definition ok (r : Response) : bool :=
  ((200 <=? status r) && (status r <=? 299))%Z.

(** ** models/StorageObject.js *)

Record StorageObject := mkStorageObject {
  guid : JsValue;
  userId : JsValue;
  dateCreated : JsValue;
  lastChanged : JsValue;
  objStorageZoneName : JsValue;
  path : JsValue;
  objectName : JsValue;
  length_ : JsValue;
  isDirectory : JsValue;
  serverId : JsValue;
  storageZoneId : JsValue
}.

(** [get fullPath()], for the case where both parts are strings. *)
Definition fullPath (o : StorageObject) : option jsstr :=
  match path o, objectName o with
  | Some (JString p), Some (JString n) => Some (p ++ n)
  | _, _ => None
  end.

(** ** models/Checksum.js

    The hash object is the sequence of octets fed to it so far. *)

Module Checksum.

Definition createHash : Buffer := [].
Definition update (hash data : Buffer) : Buffer := hash ++ data.
Definition digestHex (hash : Buffer) : jsstr := sha256Hex hash.

(** [Checksum.generate(stream)]: every [data] event updates the hash;
    [end] resolves with the digest, [error] rejects. *)
Definition generate (stream : Readable) : JsError + jsstr :=
  let hash := fold_left update (chunks stream) createHash in
  match failure stream with
  | Some err => inl err
  | None => inr (digestHex hash)
  end.

End Checksum.

(** ** Effects

    An operation runs against an environment (the service behind [fetch]
    and the local file system) and leaves a trace of what it did, in
    order.  It ends with a value or with a thrown error. *)

Inductive Event :=
| EvOpenRead (localPath : jsstr)
| EvBuffer (data : Buffer)
| EvFetch (req : Request)
| EvOpenWrite (localPath : jsstr)
| EvPipeline (source : Readable) (localPath : jsstr).

Record Env := mkEnv {
  envFetch : Request -> JsError + Response;
  envReadFile : jsstr -> Readable
}.

Definition M (A : Type) : Type :=
  Env -> list Event -> list Event * (JsError + A).

Definition throw {A} (e : JsError) : M A := fun _ tr => (tr, inl e).

#[export] Instance M_ret : MRet M := fun A x _ tr => (tr, inr x).

#[export] Instance M_bind : MBind M := fun A B k m env tr =>
  match m env tr with
  | (tr', inl e) => (tr', inl e)
  | (tr', inr x) => k x env tr'
  end.

Definition lift {A} (r : JsError + A) : M A :=
  match r with inl e => throw e | inr x => mret x end.

Definition emit (ev : Event) : M () := fun _ tr => (tr ++ [ev], inr ()).

Definition run {A} (m : M A) (env : Env) : list Event * (JsError + A) :=
  m env [].

(** [await fetch(url, init)] *)
Definition fetch (req : Request) : M Response :=
  fun env tr => (tr ++ [EvFetch req], envFetch env req).

(** [fs.createReadStream(path)] *)
Definition createReadStream (localPath : jsstr) : M StreamValue :=
  fun env tr => (tr ++ [EvOpenRead localPath], inr (Stream (envReadFile env localPath))).

(** [fs.createWriteStream(path)]; the handle is the path it writes to. *)
Definition createWriteStream (localPath : jsstr) : M jsstr :=
  emit (EvOpenWrite localPath);; mret localPath.

(** [#bufferStream(stream)] *)
Definition bufferStream (stream : StreamValue) : M Buffer :=
  match stream with
  | PipeObject => throw (mkError TypeError (js "stream is not async iterable"))
  | Stream r =>
      emit (EvBuffer (contents r));;
      match failure r with
      | Some err => throw err
      | None => mret (contents r)
      end
  end.

(** [new StorageObject(item.Guid, item.UserId, ...)], the arguments read
    left to right. *)
Definition newStorageObject (item : Json) : M StorageObject :=
  guid ← lift (prop item "Guid");
  userId ← lift (prop item "UserId");
  dateCreated ← lift (prop item "DateCreated");
  lastChanged ← lift (prop item "LastChanged");
  zoneName ← lift (prop item "StorageZoneName");
  path ← lift (prop item "Path");
  objectName ← lift (prop item "ObjectName");
  len ← lift (prop item "Length");
  isDirectory ← lift (prop item "IsDirectory");
  serverId ← lift (prop item "ServerId");
  storageZoneId ← lift (prop item "StorageZoneId");
  mret (mkStorageObject guid userId dateCreated lastChanged zoneName path
          objectName len isDirectory serverId storageZoneId).

(** [responseJson.map(f)] on a parsed JSON document: only an array has a
    callable [map]. *)
Definition jsonMap {B} (responseJson : Json) (f : Json -> M B) : M (list B) :=
  match responseJson with
  | JArray items => mapM f items
  | JNull =>
      throw (mkError TypeError (js "Cannot read properties of null (reading 'map')"))
  | _ => throw (mkError TypeError (js "responseJson.map is not a function"))
  end.

(** The headers every request carries: [{ AccessKey: this.apiAccessKey }]. *)
Definition accessHeaders (c : Client) : gmap string jsstr :=
  {[ "AccessKey" := apiAccessKey c ]}.

(** [fetch(`${this.baseAddress}${normalizedPath}`, { method, headers })] *)
Definition plainRequest (c : Client) (meth : string) (normalizedPath : jsstr)
  : Request :=
  {| url := baseAddress c ++ normalizedPath;
     method := meth;
     headers := accessHeaders c;
     body := None;
     duplex := None |}.

Definition invalidInputError : JsError :=
  newError (js "Invalid input type for upload").

Definition checksumMismatchError (normalizedPath : jsstr) : JsError :=
  newError (js "Checksum mismatch for " ++ normalizedPath).

(** The headers of an upload (source listing, lines 268-271). *)
Definition uploadHeaders (c : Client) (sha256Checksum : option jsstr)
    (contentTypeOverride : jsstr) : gmap string jsstr :=
  let headers := accessHeaders c in
  let headers :=
    match sha256Checksum with
    | Some sum => if truthy sum then <["Checksum" := sum]> headers else headers
    | None => headers
    end in
  if truthy contentTypeOverride
  then <["Override-Content-Type" := contentTypeOverride]> headers
  else headers.

(** The blocks of [upload], in the order of the source; the line numbers
    are those of the source listing. *)

(** Lines 252-258: the input becomes the value of [stream]. *)
Definition resolveInput (input : JsInput) : M StreamValue :=
  match asString input with
  | Some localPath => createReadStream localPath
  | None =>
      hasPipe ← lift (pipeOf input);
      if hasPipe : bool then mret (asStream input) else throw invalidInputError
  end.

(** Lines 260-266: with validation asked for and no checksum given, the
    stream is drained into a buffer, the buffer is hashed through one
    [PassThrough] and sent on through another. *)
Definition stampChecksum (validateChecksum : bool)
    (sha256Checksum : option jsstr) (stream : StreamValue)
  : M (option jsstr * StreamValue) :=
  if validateChecksum && negb (truthyOpt sha256Checksum) then
    bufferedData ← bufferStream stream;
    let checksumStream := passThroughEnd bufferedData in
    sum ← lift (Checksum.generate checksumStream);
    mret (Some sum, Stream (passThroughEnd bufferedData))
  else mret (sha256Checksum, stream).

(** Lines 268-278: the request. *)
Definition uploadRequest (c : Client) (normalizedPath : jsstr)
    (sha256Checksum : option jsstr) (contentTypeOverride : jsstr)
    (stream : StreamValue) : Request :=
  {| url := baseAddress c ++ normalizedPath;
     method := "PUT";
     headers := uploadHeaders c sha256Checksum contentTypeOverride;
     body := Some stream;
     duplex := Some "half" |}.

(** Lines 280-286: the response becomes a thrown error or the decoded
    body. *)
Definition uploadResult (c : Client) (normalizedPath : jsstr)
    (sha256Checksum : option jsstr) (response : Response) : JsError + Json :=
  if negb (ok response) then
    if (status response =? 400)%Z && truthyOpt sha256Checksum
    then inl (checksumMismatchError normalizedPath)
    else inl (mapResponseToException c (status response) normalizedPath)
  else json response.

(** The public methods of [class BunnyCDNStorage]. *)

Module BunnyCDNStorage.

Definition delete (c : Client) (path : jsstr) : M bool :=
  normalizedPath ← lift (normalizePath c path false);
  response ← fetch (plainRequest c "DELETE" normalizedPath);
  mret (ok response).

Definition get (c : Client) (path : jsstr) : M StorageObject :=
  normalizedPath ← lift (normalizePath c path false);
  response ← fetch (plainRequest c "DESCRIBE" normalizedPath);
  if ok response then
    item ← lift (json response);
    newStorageObject item
  else throw (mapResponseToException c (status response) normalizedPath).

Definition upload (c : Client) (input : JsInput) (storagePath : jsstr)
    (validateChecksum : bool) (sha256Checksum : option jsstr)
    (contentTypeOverride : jsstr) : M Json :=
  normalizedPath ← lift (normalizePath c storagePath false);
  stream ← resolveInput input;
  '(sha256Checksum, stream) ← stampChecksum validateChecksum sha256Checksum stream;
  response ←
    fetch (uploadRequest c normalizedPath sha256Checksum contentTypeOverride stream);
  lift (uploadResult c normalizedPath sha256Checksum response).

Definition createFolder (c : Client) (path : jsstr) : M Json :=
  normalizedPath ← lift (normalizePath c path true);
  response ← fetch (plainRequest c "PUT" normalizedPath);
  if negb (ok response)
  then throw (mapResponseToException c (status response) normalizedPath)
  else lift (json response).

Definition deleteFolder (c : Client) (path : jsstr) : M Json :=
  normalizedPath ← lift (normalizePath c path true);
  response ← fetch (plainRequest c "DELETE" normalizedPath);
  if negb (ok response)
  then throw (mapResponseToException c (status response) normalizedPath)
  else lift (json response).

Definition download (c : Client) (path localFilePath : jsstr) : M jsstr :=
  normalizedPath ← lift (normalizePath c path false);
  response ← fetch (plainRequest c "GET" normalizedPath);
  if negb (ok response)
  then throw (mapResponseToException c (status response) normalizedPath)
  else
    fileStream ← createWriteStream localFilePath;
    emit (EvPipeline (responseBody response) fileStream);;
    mret fileStream.

Definition downloadAsStream (c : Client) (path : jsstr) : M Readable :=
  normalizedPath ← lift (normalizePath c path false);
  response ← fetch (plainRequest c "GET" normalizedPath);
  if negb (ok response)
  then throw (mapResponseToException c (status response) normalizedPath)
  else mret (responseBody response).

Definition list (c : Client) (path : jsstr)
  : M (Datatypes.list StorageObject) :=
  normalizedPath ← lift (normalizePath c path true);
  response ← fetch (plainRequest c "GET" normalizedPath);
  if ok response then
    responseJson ← lift (json response);
    jsonMap responseJson newStorageObject
  else throw (mapResponseToException c (status response) normalizedPath).

End BunnyCDNStorage.

(** * Vocabulary of the properties *)

Definition doubleSlash : jsstr := [slash; slash].

Definition notSpace (o : option N) : Prop :=
  forall u, o = Some u -> isWhiteSpace u = false.

(** The path after the directory step of [#normalizePath]. *)
Definition directoryStep (isDirectory : bool) (path : jsstr) : jsstr :=
  if isDirectory
  then (if endsWith (js "/") path then path else path ++ js "/")
  else path.

(** A zone name under which a normalized path reads back unchanged: it
    does not begin with white space, and followed by its separator it has
    no two slashes in a row. *)
Definition plainZoneName (zone : jsstr) : bool :=
  negb (match zone with u :: _ => isWhiteSpace u | [] => false end)
  && negb (includes doubleSlash (zone ++ js "/")).

(** A computation that throws [e] before it leaves any trace. *)
Definition abortsWith {A} (m : M A) (e : JsError) : Prop :=
  forall env, run m env = ([], inl e).

(** Specification side: the four ways of writing [de] in upper and lower
    case. *)
Definition isCasingOfDe (code : jsstr) : Prop :=
  code = js "de" \/ code = js "dE" \/ code = js "De" \/ code = js "DE".

(** The octets an upload input stands for: the content of the file behind
    a local path, or of the stream handed in. *)
Definition inputBytes (env : Env) (input : JsInput) : option Buffer :=
  match input with
  | InString localPath => Some (contents (envReadFile env localPath))
  | InStream r => Some (contents r)
  | _ => None
  end.

(** The readable stream behind an upload input, if it has one. *)
Definition inputStream (env : Env) (input : JsInput) : option Readable :=
  match input with
  | InString localPath => Some (envReadFile env localPath)
  | InStream r => Some r
  | _ => None
  end.

(** Everything [upload] does between normalization and the request. *)
Definition prepareUpload (input : JsInput) (validateChecksum : bool)
    (sha256Checksum : option jsstr) : M (option jsstr * StreamValue) :=
  resolveInput input ≫= stampChecksum validateChecksum sha256Checksum.

Definition isFetch (ev : Event) : bool :=
  match ev with EvFetch _ => true | _ => false end.

Definition isLowerHexDigit (u : N) : bool :=
  (((48 <=? u) && (u <=? 57)) || ((97 <=? u) && (u <=? 102)))%N.

(** A service that answers every request with the given status and an
    empty JSON document, over a file system whose files all hold [abc]. *)
Definition stubEnv (st : Z) : Env :=
  {| envFetch := fun _ => inr (mkResponse st (inr JNull) (mkReadable [] None));
     envReadFile := fun _ => mkReadable [bytesOf "abc"] None |}.

(** Specification side: the kinds of failure of the error table, and the
    kind the table gives for a status. *)
Inductive ErrorKind :=
| NotFound
| Unauthorized
| ChecksumMismatch
| InvalidPath
| Unknown.

Definition kindOfStatus (statusCode : Z) (checksumPresent : bool) : ErrorKind :=
  if (statusCode =? 404)%Z then NotFound
  else if (statusCode =? 401)%Z then Unauthorized
  else if (statusCode =? 400)%Z then
    (if checksumPresent then ChecksumMismatch else InvalidPath)
  else Unknown.

(** The error object by which the client signals each kind, with the
    message the source gives it. *)
Definition errorOfKind (c : Client) (kind : ErrorKind) (path : jsstr) : JsError :=
  match kind with
  | NotFound => newError (js "File not found: " ++ path)
  | Unauthorized =>
      newError (js "Unauthorized access to storage zone: " ++ storageZoneName c)
  | ChecksumMismatch => newError (js "Checksum mismatch for " ++ path)
  | InvalidPath => newError (js "Unable to upload file. Invalid path specified")
  | Unknown => newError (js "An unknown error has occurred during the request.")
  end.

(** Whether an upload request carries a checksum. *)
Definition sendsChecksum (req : Request) : bool :=
  bool_decide (is_Some (headers req !! "Checksum")).

Definition invalidPathMessage : jsstr :=
  js "Unable to upload file. Invalid path specified".

Definition unknownMessage : jsstr :=
  js "An unknown error has occurred during the request.".

(** The requests of a trace, in the order they were issued. *)
Definition fetches (tr : list Event) : list Request :=
  omap (fun ev => match ev with EvFetch req => Some req | _ => None end) tr.

Definition isBuffer (ev : Event) : bool :=
  match ev with EvBuffer _ => true | _ => false end.

(** Events that touch the local file being downloaded to. *)
Definition isLocalWrite (ev : Event) : bool :=
  match ev with EvOpenWrite _ | EvPipeline _ _ => true | _ => false end.

(** [item.key] on an item that is not [null]. *)
Definition fieldOf (item : Json) (key : string) : JsValue :=
  match item with
  | JObject fields => assoc key fields
  | _ => None
  end.

(** The storage object built from an item that is not [null]. *)
Definition decoded (item : Json) : StorageObject :=
  {| guid := fieldOf item "Guid";
     userId := fieldOf item "UserId";
     dateCreated := fieldOf item "DateCreated";
     lastChanged := fieldOf item "LastChanged";
     objStorageZoneName := fieldOf item "StorageZoneName";
     path := fieldOf item "Path";
     objectName := fieldOf item "ObjectName";
     length_ := fieldOf item "Length";
     isDirectory := fieldOf item "IsDirectory";
     serverId := fieldOf item "ServerId";
     storageZoneId := fieldOf item "StorageZoneId" |}.

Definition defaultAddress : jsstr := js "https://storage.bunnycdn.com/".

(** The region codes that select the default endpoint. *)
Definition isDefaultRegion (code : jsstr) : Prop :=
  code = js "" \/ isCasingOfDe code.

(** [s] with one slash after it unless it already ends with one. *)
Definition withTrailingSlash (s : jsstr) : jsstr :=
  if endsWith (js "/") s then s else s ++ js "/".

(** The error of reading the first field of a [null] item. *)
Definition nullItemError : JsError :=
  mkError TypeError (js "Cannot read properties of null (reading 'Guid')").

Definition isNull (item : Json) : bool :=
  match item with JNull => true | _ => false end.

(** What decoding one item comes to. *)
Definition decodeItem (item : Json) : JsError + StorageObject :=
  if isNull item then inl nullItemError else inr (decoded item).

(** What decoding a listing comes to. *)
Definition decodeItems (responseJson : Json) : JsError + list StorageObject :=
  match responseJson with
  | JArray items =>
      if existsb isNull items then inl nullItemError else inr (decoded <$> items)
  | JNull =>
      inl (mkError TypeError (js "Cannot read properties of null (reading 'map')"))
  | _ => inl (mkError TypeError (js "responseJson.map is not a function"))
  end.

(** The outcome of an operation that throws the mapped error on a failure
    status and otherwise goes on with [onSuccess]. *)
Definition answered {A} (c : Client) (q : jsstr)
    (answer : JsError + Response) (onSuccess : Response -> JsError + A)
  : JsError + A :=
  match answer with
  | inl e => inl e
  | inr r =>
      if ok r then onSuccess r
      else inl (mapResponseToException c (status r) q)
  end.

(** A trace with at most one request, that request being the given
    method on the base address followed by the normalized path, with the
    access key in its headers. *)
Definition requestsWellFormed (c : Client) (meth : string) (p : jsstr)
    (d : bool) (tr : list Event) : Prop :=
  (length (fetches tr) <= 1)%nat
  /\ forall req, req ∈ fetches tr ->
       exists q,
         normalizePath c p d = inr q
         /\ url req = baseAddress c ++ q
         /\ method req = meth
         /\ headers req !! "AccessKey" = Some (apiAccessKey c).

(** * Properties *)

(** ** Strings *)

Section StringFacts.

Local Open Scope N_scope.

Lemma startsWith_prefix (p s : jsstr) :
  startsWith p s = true <-> p `prefix_of` s.
Proof.
  revert s. induction p as [|a p IH]; intros s; simpl.
  - split; [intros _; apply prefix_nil | done].
  - destruct s as [|b s].
    + split; [done | intros [k Hk]; discriminate].
    + rewrite andb_true_iff, N.eqb_eq, IH. split.
      * intros [-> [k ->]]. by exists k.
      * intros [k Hk]. simpl in Hk. injection Hk as -> ->. split; [done | by exists k].
Qed.

Lemma startsWith_app (p k : jsstr) : startsWith p (p ++ k) = true.
Proof. apply startsWith_prefix. by exists k. Qed.

Lemma includes_startsWith (p s : jsstr) :
  startsWith p s = true -> includes p s = true.
Proof. intros H. destruct s; simpl; by rewrite H. Qed.

Lemma includes_app (p a b : jsstr) : includes p (a ++ p ++ b) = true.
Proof.
  induction a as [|u a IH].
  - apply includes_startsWith. exact (startsWith_app p b).
  - change (includes p (u :: (a ++ p ++ b)) = true). simpl.
    rewrite IH. apply orb_true_r.
Qed.

Lemma includes_tail (p a : jsstr) : includes p (a ++ p) = true.
Proof. rewrite <- (app_nil_r p) at 2. apply includes_app. Qed.

Lemma includes_infix (p s : jsstr) :
  includes p s = true -> exists a b, s = a ++ p ++ b.
Proof.
  induction s as [|u s IH]; simpl.
  - rewrite orb_false_r. intros [k ->]%startsWith_prefix. by exists [], k.
  - intros [H|H]%orb_true_iff.
    + apply startsWith_prefix in H as [k ->]. by exists [], k.
    + destruct (IH H) as (a & b & ->). by exists (u :: a), b.
Qed.

(** *** Collapsing runs of slashes *)

Lemma collapse_cons2 (u v : N) (t : jsstr) :
  collapseSlashes (u :: v :: t) =
  if (u =? slash) && (v =? slash) then collapseSlashes (v :: t)
  else u :: collapseSlashes (v :: t).
Proof. reflexivity. Qed.

Lemma includes_double_cons2 (u v : N) (t : jsstr) :
  includes doubleSlash (u :: v :: t) =
  ((u =? slash) && (v =? slash)) || includes doubleSlash (v :: t).
Proof.
  change (includes doubleSlash (u :: v :: t))
    with (startsWith doubleSlash (u :: v :: t) || includes doubleSlash (v :: t)).
  f_equal. unfold doubleSlash. cbn [startsWith]. rewrite andb_true_r.
  by rewrite (N.eqb_sym slash u), (N.eqb_sym slash v).
Qed.

Lemma collapse_head (s : jsstr) : head (collapseSlashes s) = head s.
Proof.
  induction s as [|u [|v t] IH]; try done.
  rewrite collapse_cons2.
  destruct ((u =? slash) && (v =? slash)) eqn:E; [|done].
  apply andb_true_iff in E as [->%N.eqb_eq ->%N.eqb_eq]. exact IH.
Qed.

Lemma collapse_last (s : jsstr) : last (collapseSlashes s) = last s.
Proof.
  induction s as [|u [|v t] IH]; try done.
  rewrite collapse_cons2.
  change (last (u :: v :: t)) with (last (v :: t)).
  destruct ((u =? slash) && (v =? slash)); [exact IH|].
  rewrite last_cons, IH.
  destruct (last (v :: t)) eqn:E; [done|]. by apply last_None in E.
Qed.

Lemma collapse_free (s : jsstr) :
  includes doubleSlash (collapseSlashes s) = false.
Proof.
  induction s as [|u [|v t] IH]; [done | |].
  { unfold doubleSlash. cbn [collapseSlashes includes startsWith].
    by rewrite andb_false_r. }
  rewrite collapse_cons2.
  destruct ((u =? slash) && (v =? slash)) eqn:E; [exact IH|].
  pose proof (collapse_head (v :: t)) as Hh.
  destruct (collapseSlashes (v :: t)) as [|v' t'] eqn:Ec; [done|].
  injection Hh as ->.
  by rewrite includes_double_cons2, E, IH.
Qed.

Lemma collapse_fixed (s : jsstr) :
  includes doubleSlash s = false -> collapseSlashes s = s.
Proof.
  induction s as [|u [|v t] IH]; try done.
  rewrite includes_double_cons2, collapse_cons2.
  intros [-> H]%orb_false_iff. by rewrite IH.
Qed.

Lemma collapse_idem (s : jsstr) :
  collapseSlashes (collapseSlashes s) = collapseSlashes s.
Proof. apply collapse_fixed, collapse_free. Qed.

Lemma collapse_elem (s : jsstr) (u : N) :
  u ∈ collapseSlashes s -> u ∈ s.
Proof.
  induction s as [|a [|b t] IH]; try done.
  rewrite collapse_cons2.
  destruct ((a =? slash) && (b =? slash)).
  - intros H. right. by apply IH.
  - intros [->|H]%elem_of_cons; [left | right; by apply IH].
Qed.

Lemma collapse_keeps_prefix (a r : jsstr) :
  includes doubleSlash (a ++ [slash]) = false ->
  exists k, collapseSlashes (a ++ slash :: r) = (a ++ [slash]) ++ k.
Proof.
  induction a as [|u [|v a] IH]; intros Hfree.
  - pose proof (collapse_head (slash :: r)) as Hh.
    destruct (collapseSlashes (slash :: r)) as [|x k] eqn:E; [done|].
    injection Hh as ->. by exists k.
  - change ([u] ++ [slash]) with (u :: slash :: []) in Hfree.
    rewrite includes_double_cons2 in Hfree.
    apply orb_false_iff in Hfree as [Hu _].
    change ([u] ++ slash :: r) with (u :: slash :: r).
    rewrite collapse_cons2, Hu.
    destruct (IH eq_refl) as [k Hk]. simpl in Hk. exists k. simpl. by rewrite Hk.
  - change ((u :: v :: a) ++ [slash]) with (u :: v :: (a ++ [slash])) in Hfree.
    rewrite includes_double_cons2 in Hfree.
    apply orb_false_iff in Hfree as [Huv Hrest].
    change ((u :: v :: a) ++ slash :: r) with (u :: v :: (a ++ slash :: r)).
    rewrite collapse_cons2, Huv.
    destruct (IH Hrest) as [k Hk]. exists k.
    change (v :: a ++ slash :: r) with ((v :: a) ++ slash :: r). rewrite Hk. done.
Qed.

(** *** Trimming and the first clean-up steps *)

Lemma trimStart_head (s : jsstr) : notSpace (head (trimStart s)).
Proof.
  induction s as [|u s IH]; [done|]. simpl.
  destruct (isWhiteSpace u) eqn:E; [exact IH|].
  intros x [= <-]. exact E.
Qed.

Lemma trimStart_fixed (s : jsstr) : notSpace (head s) -> trimStart s = s.
Proof.
  destruct s as [|u s]; [done|]. intros H. simpl. by rewrite (H u).
Qed.

Lemma trimEnd_last (s : jsstr) : notSpace (last (trimEnd s)).
Proof. unfold trimEnd. rewrite last_reverse. apply trimStart_head. Qed.

Lemma trimEnd_fixed (s : jsstr) : notSpace (last s) -> trimEnd s = s.
Proof.
  intros H. unfold trimEnd. rewrite trimStart_fixed.
  - apply reverse_involutive.
  - by rewrite head_reverse.
Qed.

Lemma trim_last (s : jsstr) : notSpace (last (trim s)).
Proof. apply trimEnd_last. Qed.

Lemma trim_fixed (s : jsstr) :
  notSpace (head s) -> notSpace (last s) -> trim s = s.
Proof.
  intros Hh Hl. unfold trim. rewrite (trimStart_fixed s Hh).
  by apply trimEnd_fixed.
Qed.

Lemma replaceBackslashes_last (s : jsstr) :
  notSpace (last s) -> notSpace (last (replaceBackslashes s)).
Proof.
  unfold replaceBackslashes. rewrite fmap_last.
  intros H u. destruct (last s) as [x|]; [|done].
  intros [= <-]. destruct (x =? backslash); [done | by apply H].
Qed.

Lemma replaceBackslashes_free (s : jsstr) :
  backslash ∉ replaceBackslashes s.
Proof.
  unfold replaceBackslashes. intros (x & Hx & _)%list_elem_of_fmap.
  destruct (x =? backslash) eqn:E; [done|].
  apply N.eqb_neq in E. congruence.
Qed.

Lemma replaceBackslashes_fixed (s : jsstr) :
  backslash ∉ s -> replaceBackslashes s = s.
Proof.
  unfold replaceBackslashes. induction s as [|u s IH]; [done|].
  intros H. apply not_elem_of_cons in H as [Hu Hs].
  rewrite fmap_cons, (IH Hs).
  destruct (u =? backslash) eqn:E; [|done].
  apply N.eqb_eq in E. congruence.
Qed.

Lemma stripLeadingSlashes_suffix (s : jsstr) :
  stripLeadingSlashes s `suffix_of` s.
Proof.
  induction s as [|u s IH]; [done|]. simpl.
  destruct (u =? slash); [by apply suffix_cons_r | done].
Qed.

Lemma stripLeadingSlashes_head (s : jsstr) :
  head (stripLeadingSlashes s) <> Some slash.
Proof.
  induction s as [|u s IH]; [done|]. simpl.
  destruct (u =? slash) eqn:E; [exact IH|].
  apply N.eqb_neq in E. simpl. congruence.
Qed.

Lemma stripLeadingSlashes_fixed (s : jsstr) :
  head s <> Some slash -> stripLeadingSlashes s = s.
Proof.
  destruct s as [|u s]; [done|]. simpl. intros H.
  destruct (u =? slash) eqn:E; [|done].
  apply N.eqb_eq in E. congruence.
Qed.

Lemma last_suffix (s k : jsstr) :
  s `suffix_of` k -> s <> [] -> last s = last k.
Proof.
  intros [p ->] Hs. rewrite last_app.
  destruct (last s) eqn:E; [done|]. by apply last_None in E.
Qed.

Lemma endsWith_slash (s : jsstr) :
  endsWith [slash] s = true <-> last s = Some slash.
Proof.
  unfold endsWith. rewrite <- head_reverse.
  change (reverse [slash]) with [slash].
  destruct (reverse s) as [|u r]; [done|].
  cbn [startsWith head]. rewrite andb_true_r, N.eqb_eq. split; congruence.
Qed.

End StringFacts.

(** ** Path normalization *)

Section Normalize.

Variable c : Client.

Let zone := storageZoneName c.

Lemma cleanPath_prefix_shape (p : jsstr) :
  startsWith (zone ++ [slash]) (cleanPath p) = true ->
  exists rest,
    cleanPath p = zone ++ slash :: rest
    /\ (backslash ∉ cleanPath p)
    /\ notSpace (last (cleanPath p))
    /\ head (zone ++ [slash]) <> Some slash.
Proof.
  intros [rest Hrest]%startsWith_prefix.
  exists rest. rewrite <- (assoc_L (++)) in Hrest. split; [exact Hrest|].
  assert (Hne : cleanPath p <> []).
  { rewrite Hrest. by destruct zone. }
  repeat split.
  - intros Hin. apply (replaceBackslashes_free (trim p)).
    destruct (stripLeadingSlashes_suffix (replaceBackslashes (trim p))) as [k Hk].
    unfold cleanPath in Hin. rewrite Hk. apply elem_of_app. by right.
  - unfold cleanPath in *.
    rewrite (last_suffix _ _ (stripLeadingSlashes_suffix _) Hne).
    apply replaceBackslashes_last, trim_last.
  - pose proof (stripLeadingSlashes_head (replaceBackslashes (trim p))) as Hh.
    fold (cleanPath p) in Hh. rewrite Hrest in Hh.
    destruct zone; simpl in *; congruence.
Qed.

Lemma normalizePath_inr (p : jsstr) (d : bool) (q : jsstr) :
  normalizePath c p d = inr q <->
  startsWith (zone ++ [slash]) (cleanPath p) = true
  /\ q = collapseSlashes (directoryStep d (cleanPath p)).
Proof.
  unfold normalizePath, directoryStep. fold zone.
  change (js "/") with [slash].
  destruct (startsWith (zone ++ [slash]) (cleanPath p)); simpl.
  - split; [intros [= <-]; done | intros [_ ->]; done].
  - split; [done | intros [? _]; done].
Qed.

Lemma normalizePath_inl (p : jsstr) (d : bool) (e : JsError) :
  normalizePath c p d = inl e <->
  startsWith (zone ++ [slash]) (cleanPath p) = false
  /\ e = pathValidationError c.
Proof.
  unfold normalizePath. fold zone. change (js "/") with [slash].
  destruct (startsWith (zone ++ [slash]) (cleanPath p)); simpl.
  - split; [done | intros [? _]; done].
  - split; [intros [= <-]; done | intros [_ ->]; done].
Qed.

Lemma directoryStep_last (p : jsstr) :
  last (directoryStep true p) = Some slash.
Proof.
  unfold directoryStep. change (js "/") with [slash].
  destruct (endsWith [slash] p) eqn:E.
  - by apply endsWith_slash.
  - apply last_snoc.
Qed.

Lemma directoryStep_shape (d : bool) (p : jsstr) :
  exists tail, directoryStep d p = p ++ tail /\ (tail = [] \/ tail = [slash]).
Proof.
  unfold directoryStep. change (js "/") with [slash].
  destruct d; [destruct (endsWith [slash] p)|].
  - exists []. by rewrite app_nil_r; auto.
  - exists [slash]. auto.
  - exists []. by rewrite app_nil_r; auto.
Qed.

End Normalize.

(** C4. In directory mode a successful normalization yields a path that
    ends with a slash but not with two, and in which no two slashes are
    adjacent anywhere. *)
Theorem normalizePath_directory_one_trailing_slash
    (c : Client) (p q : jsstr) :
  normalizePath c p true = inr q ->
  endsWith (js "/") q = true
  /\ endsWith (js "//") q = false
  /\ includes (js "//") q = false
  /\ (forall a b, q <> a ++ js "//" ++ b).
Proof.
  intros [_ ->]%normalizePath_inr.
  assert (Hfree : includes doubleSlash
            (collapseSlashes (directoryStep true (cleanPath p))) = false)
    by apply collapse_free.
  assert (Hno : forall a b,
            collapseSlashes (directoryStep true (cleanPath p))
            <> a ++ doubleSlash ++ b).
  { intros a b E. rewrite E, includes_app in Hfree. done. }
  repeat split.
  - apply endsWith_slash. rewrite collapse_last. apply directoryStep_last.
  - destruct (endsWith (js "//") _) eqn:E; [|done].
    unfold endsWith in E. apply startsWith_prefix in E as [k Hk].
    apply (f_equal reverse) in Hk.
    rewrite reverse_involutive, reverse_app, reverse_involutive in Hk.
    exfalso. apply (Hno (reverse k) []). by rewrite app_nil_r.
  - exact Hfree.
  - exact Hno.
Qed.

(** C3, as amended. Under a zone name that does not begin with white
    space and that, with its separator, has no doubled slash, a
    successfully normalized path normalizes to itself with the same
    directory flag. *)
Theorem normalizePath_idempotent (c : Client) (p : jsstr) (d : bool) (q : jsstr) :
  plainZoneName (storageZoneName c) = true ->
  normalizePath c p d = inr q ->
  normalizePath c q d = inr q.
Proof.
  intros [Hsp Hfree]%andb_true_iff [Hstart ->]%normalizePath_inr.
  apply negb_true_iff in Hsp, Hfree. change (js "/") with [slash] in Hfree.
  destruct (cleanPath_prefix_shape c p Hstart)
    as (rest & Hshape & Hbs & Hlast & Hhead).
  destruct (directoryStep_shape d (cleanPath p)) as (tail & Hdir & Htail).
  set (z := storageZoneName c) in *.
  set (q := collapseSlashes (directoryStep d (cleanPath p))).
  (* the zone prefix survives the collapse *)
  assert (Hq : exists k, q = (z ++ [slash]) ++ k).
  { subst q. rewrite Hdir, Hshape, <- (assoc_L (++)).
    change ((slash :: rest) ++ tail) with (slash :: (rest ++ tail)).
    by apply collapse_keeps_prefix. }
  destruct Hq as [k Hq].
  assert (Hqhead : head q = head (z ++ [slash])).
  { rewrite Hq. by destruct z. }
  assert (Hqlast : last q = last (directoryStep d (cleanPath p)))
    by apply collapse_last.
  assert (Hne : cleanPath p <> []) by (rewrite Hshape; by destruct z).
  (* the clean-up steps leave [q] as it is *)
  assert (Hclean : cleanPath q = q).
  { unfold cleanPath. rewrite trim_fixed.
    - rewrite replaceBackslashes_fixed.
      + apply stripLeadingSlashes_fixed. by rewrite Hqhead.
      + intros Hin%collapse_elem. rewrite Hdir in Hin.
        apply elem_of_app in Hin as [Hin|Hin]; [done|].
        destruct Htail as [-> | ->]; [by apply elem_of_nil in Hin|].
        apply list_elem_of_singleton in Hin. discriminate.
    - rewrite Hqhead. intros u Hu. destruct z as [|a z']; simpl in Hu.
      + by injection Hu as <-.
      + injection Hu as <-. exact Hsp.
    - rewrite Hqlast, Hdir. destruct Htail as [-> | ->].
      + by rewrite app_nil_r.
      + rewrite last_snoc. by intros u [= <-]. }
  apply normalizePath_inr. rewrite Hclean. split.
  - rewrite Hq. apply startsWith_app.
  - assert (Hstep : directoryStep d q = q).
    { unfold directoryStep. destruct d; [|done].
      assert (Hl : last q = Some slash)
        by (rewrite Hqlast; apply directoryStep_last).
      apply endsWith_slash in Hl. change (js "/") with [slash]. by rewrite Hl. }
    rewrite Hstep. subst q. by rewrite collapse_idem.
Qed.

(** The theorem at work: zone [zone], a raw path with blanks, backslashes
    and repeated slashes, directory mode. *)
Lemma normalizePath_idempotent_witness :
  let c := newClient (js "zone") (js "key") None in
  let p := js "  \zone\\a//b " in
  plainZoneName (storageZoneName c) = true
  /\ normalizePath c p true = inr (js "zone/a/b/")
  /\ normalizePath c (js "zone/a/b/") true = inr (js "zone/a/b/").
Proof.
  intros c p.
  assert (Hz : plainZoneName (storageZoneName c) = true)
    by (vm_compute; reflexivity).
  assert (Hp : normalizePath c p true = inr (js "zone/a/b/"))
    by (vm_compute; reflexivity).
  split; [exact Hz | split; [exact Hp |]].
  exact (normalizePath_idempotent c p true (js "zone/a/b/") Hz Hp).
Defined.

(** C3 as stated fails: under the zone name [ zone] (leading blank) the
    path [/ zone/x] normalizes to [ zone/x], which is then rejected. *)
Lemma normalizePath_idempotent_counterexample :
  let c := newClient (js " zone") (js "key") None in
  normalizePath c (js "/ zone/x") false = inr (js " zone/x")
  /\ normalizePath c (js " zone/x") false = inl (pathValidationError c)
  /\ ~ (forall (c : Client) (p : jsstr) (d : bool) (q : jsstr),
          normalizePath c p d = inr q -> normalizePath c q d = inr q).
Proof.
  intros c.
  assert (H1 : normalizePath c (js "/ zone/x") false = inr (js " zone/x"))
    by (vm_compute; reflexivity).
  assert (H2 : normalizePath c (js " zone/x") false = inl (pathValidationError c))
    by (vm_compute; reflexivity).
  split; [exact H1 | split; [exact H2 |]].
  intros H. specialize (H c _ _ _ H1). rewrite H2 in H. discriminate.
Qed.

(** A doubled slash inside the zone name breaks idempotence as well. *)
Example normalizePath_doubled_zone :
  let c := newClient (js "a//b") (js "key") None in
  normalizePath c (js "a//b/x") false = inr (js "a/b/x")
  /\ normalizePath c (js "a/b/x") false = inl (pathValidationError c).
Proof. split; vm_compute; reflexivity. Qed.

(** C2. Normalization throws the path validation error exactly when the
    cleaned path (trimmed, backslashes turned into slashes, leading
    slashes stripped) does not begin with the zone name and a slash; every
    operation then throws that error before it issues a request or leaves
    any other trace.  Otherwise normalization returns a path. *)
Theorem normalizePath_fails_iff_no_zone_prefix
    (c : Client) (p : jsstr) (d : bool) :
  let cleaned := stripLeadingSlashes (replaceBackslashes (trim p)) in
  let zonePrefix := storageZoneName c ++ js "/" in
  (~ zonePrefix `prefix_of` cleaned ->
     normalizePath c p d = inl (pathValidationError c)
     /\ abortsWith (BunnyCDNStorage.delete c p) (pathValidationError c)
     /\ abortsWith (BunnyCDNStorage.get c p) (pathValidationError c)
     /\ abortsWith (BunnyCDNStorage.list c p) (pathValidationError c)
     /\ (forall input validate sum contentType,
           abortsWith (BunnyCDNStorage.upload c input p validate sum contentType)
                      (pathValidationError c))
     /\ abortsWith (BunnyCDNStorage.createFolder c p) (pathValidationError c)
     /\ abortsWith (BunnyCDNStorage.deleteFolder c p) (pathValidationError c)
     /\ (forall localFilePath,
           abortsWith (BunnyCDNStorage.download c p localFilePath)
                      (pathValidationError c))
     /\ abortsWith (BunnyCDNStorage.downloadAsStream c p) (pathValidationError c))
  /\ (zonePrefix `prefix_of` cleaned ->
       exists q, normalizePath c p d = inr q).
Proof.
  intros cleaned zonePrefix. split.
  - intros Hno.
    assert (Hs : startsWith zonePrefix (cleanPath p) = false).
    { destruct (startsWith zonePrefix (cleanPath p)) eqn:E; [|done].
      by apply startsWith_prefix in E. }
    assert (Hn : forall d', normalizePath c p d' = inl (pathValidationError c)).
    { intros d'. by apply normalizePath_inl. }
    split; [apply Hn|].
    unfold abortsWith, run,
      BunnyCDNStorage.delete, BunnyCDNStorage.get, BunnyCDNStorage.list,
      BunnyCDNStorage.upload, BunnyCDNStorage.createFolder,
      BunnyCDNStorage.deleteFolder, BunnyCDNStorage.download,
      BunnyCDNStorage.downloadAsStream.
    repeat split; intros; unfold mbind, M_bind; by rewrite Hn.
  - intros Hyes%startsWith_prefix.
    eexists. apply normalizePath_inr. split; [exact Hyes | reflexivity].
Qed.

(** Both directions at work under the zone [zone]: [/other/file.txt] is
    rejected without a request, [/zone/file.txt] is accepted. *)
Lemma normalizePath_fails_iff_no_zone_prefix_witness :
  let c := newClient (js "zone") (js "key") None in
  (~ js "zone/" `prefix_of` js "other/file.txt")
  /\ normalizePath c (js "/other/file.txt") false = inl (pathValidationError c)
  /\ abortsWith (BunnyCDNStorage.delete c (js "/other/file.txt"))
                (pathValidationError c)
  /\ js "zone/" `prefix_of` js "zone/file.txt"
  /\ exists q, normalizePath c (js " /zone/file.txt") false = inr q.
Proof.
  intros c.
  assert (Hno : ~ js "zone/" `prefix_of` js "other/file.txt").
  { intros H. apply startsWith_prefix in H. vm_compute in H. discriminate. }
  assert (Hyes : js "zone/" `prefix_of` js "zone/file.txt").
  { apply startsWith_prefix. vm_compute. reflexivity. }
  pose proof (normalizePath_fails_iff_no_zone_prefix c (js "/other/file.txt") false)
    as [Hfail _].
  pose proof (normalizePath_fails_iff_no_zone_prefix c (js " /zone/file.txt") false)
    as [_ Hok].
  destruct (Hfail Hno) as (Hn & Hdel & _).
  split; [exact Hno | split; [exact Hn | split; [exact Hdel | split; [exact Hyes |]]]].
  exact (Hok Hyes).
Defined.

(** The path of C4's theorem in action. *)
Lemma normalizePath_directory_one_trailing_slash_witness :
  let c := newClient (js "zone") (js "key") None in
  normalizePath c (js "//zone///photos////") true = inr (js "zone/photos/")
  /\ endsWith (js "/") (js "zone/photos/") = true
  /\ endsWith (js "//") (js "zone/photos/") = false
  /\ includes (js "//") (js "zone/photos/") = false
  /\ (forall a b, js "zone/photos/" <> a ++ js "//" ++ b).
Proof.
  intros c.
  assert (Hp : normalizePath c (js "//zone///photos////") true
               = inr (js "zone/photos/")) by (vm_compute; reflexivity).
  split; [exact Hp|].
  exact (normalizePath_directory_one_trailing_slash c _ _ Hp).
Defined.

(** ** Region resolution *)

Section LowerCase.

Local Open Scope N_scope.

Ltac boolToProp :=
  repeat match goal with
  | H : _ && _ = true |- _ => apply andb_true_iff in H as [? ?]
  | H : _ && _ = false |- _ => apply andb_false_iff in H as [? | ?]
  | H : negb _ = true |- _ => apply negb_true_iff in H
  | H : negb _ = false |- _ => apply negb_false_iff in H
  | H : (_ <=? _) = true |- _ => apply N.leb_le in H
  | H : (_ <=? _) = false |- _ => apply N.leb_gt in H
  | H : (_ =? _) = true |- _ => apply N.eqb_eq in H
  | H : (_ =? _) = false |- _ => apply N.eqb_neq in H
  end.

Lemma lowerUnit_single (u x : N) :
  lowerUnit u = [x] ->
  (x = u /\ ~ (65 <= u <= 90)) \/ (x = u + 32 /\ 65 <= u <= 90)
  \/ 128 <= x \/ x = 107.
Proof.
  unfold lowerUnit.
  repeat (match goal with |- context [if ?b then _ else _] =>
                            destruct b eqn:? end);
    intros H; try discriminate H; injection H as <-; boolToProp; lia.
Qed.

Lemma lowerUnit_length (u : N) : (1 <= length (lowerUnit u))%nat.
Proof.
  unfold lowerUnit.
  repeat (match goal with |- context [if ?b then _ else _] =>
                            destruct b end); simpl; lia.
Qed.

Lemma toLowerCase_nil (s : jsstr) : toLowerCase s = [] -> s = [].
Proof.
  destruct s as [|u s]; [done|]. unfold toLowerCase. simpl.
  intros H. apply (f_equal length) in H. rewrite length_app in H.
  pose proof (lowerUnit_length u). simpl in H. lia.
Qed.

(** A string whose lower-case form is one of the letters [a] to [h]
    followed by [rest] starts with that letter in either case.  (The
    letters [i] and [k] also arise from U+0130 and from the Kelvin sign.) *)
Lemma toLowerCase_letter (s : jsstr) (x : N) (rest : jsstr) :
  97 <= x <= 104 ->
  toLowerCase s = x :: rest ->
  exists u s', s = u :: s' /\ (u = x \/ u + 32 = x) /\ toLowerCase s' = rest.
Proof.
  intros Hx. destruct s as [|u s]; [done|].
  unfold toLowerCase. simpl. fold (toLowerCase s).
  destruct (lowerUnit u) as [|y [|y' l]] eqn:E.
  - pose proof (lowerUnit_length u) as Hl. rewrite E in Hl. simpl in Hl. lia.
  - simpl. intros [= -> Hrest]. exists u, s. split; [done|]. split; [|done].
    apply lowerUnit_single in E. lia.
  - simpl. intros [= -> _]. exfalso. revert E. unfold lowerUnit.
    repeat (match goal with |- context [if ?b then _ else _] =>
                              destruct b eqn:? end); try done.
    intros [= <- _ _]. lia.
Qed.

Lemma toLowerCase_de (s : jsstr) :
  toLowerCase s = js "de" <-> isCasingOfDe s.
Proof.
  split.
  - change (js "de") with [100; 101].
    intros (u & s' & -> & Hu & H')%toLowerCase_letter; [|lia].
    apply toLowerCase_letter in H' as (v & s'' & -> & Hv & H''); [|lia].
    apply toLowerCase_nil in H'' as ->.
    unfold isCasingOfDe.
    assert (u = 100 \/ u = 68) as [-> | ->] by lia;
      assert (v = 101 \/ v = 69) as [-> | ->] by lia; auto.
  - intros [-> | [-> | [-> | ->]]]; reflexivity.
Qed.

End LowerCase.

(** C5. The empty code and every casing of [de] resolve to the default
    endpoint; every other code is spliced into the host name as given;
    [ny] resolves to the New York endpoint. *)
Theorem getBaseAddress_resolves (code : jsstr) :
  (code = js "" \/ isCasingOfDe code ->
     getBaseAddress code = js "https://storage.bunnycdn.com/")
  /\ (code <> js "" -> ~ isCasingOfDe code ->
     getBaseAddress code = js "https://" ++ code ++ js ".storage.bunnycdn.com/")
  /\ getBaseAddress (js "ny") = js "https://ny.storage.bunnycdn.com/"
  /\ getBaseAddress (js "DE") = js "https://storage.bunnycdn.com/"
  /\ getBaseAddress (js "De") = getBaseAddress (js "").
Proof.
  unfold getBaseAddress. repeat split.
  - intros [-> | H]; [done|].
    apply toLowerCase_de in H. rewrite (bool_decide_eq_true_2 _ H).
    by rewrite orb_true_r.
  - intros Hne Hde.
    rewrite (bool_decide_eq_false_2 _ Hne).
    rewrite <- toLowerCase_de in Hde. by rewrite (bool_decide_eq_false_2 _ Hde).
Qed.

(** C5 at a region constant and at an unusual casing. *)
Lemma getBaseAddress_resolves_witness :
  (StorageRegion.Sydney <> js "" /\ ~ isCasingOfDe StorageRegion.Sydney)
  /\ getBaseAddress StorageRegion.Sydney = js "https://syd.storage.bunnycdn.com/"
  /\ isCasingOfDe (js "dE")
  /\ getBaseAddress (js "dE") = js "https://storage.bunnycdn.com/".
Proof.
  assert (Hne : StorageRegion.Sydney <> js "") by (vm_compute; discriminate).
  assert (Hde : ~ isCasingOfDe StorageRegion.Sydney).
  { unfold isCasingOfDe. vm_compute. intros [H | [H | [H | H]]]; discriminate. }
  assert (Hc : isCasingOfDe (js "dE")) by (right; left; reflexivity).
  destruct (getBaseAddress_resolves StorageRegion.Sydney) as (_ & Hother & _).
  destruct (getBaseAddress_resolves (js "dE")) as (Hdef & _).
  split; [by split|]. split; [exact (Hother Hne Hde)|].
  split; [exact Hc|]. exact (Hdef (or_intror Hc)).
Defined.

(** ** Running an upload *)

Ltac stepM :=
  repeat progress
    (unfold mbind, M_bind, mret, M_ret, emit, throw;
     cbn -[Checksum.generate passThroughEnd contents sha256Hex uploadHeaders]).

Lemma generate_passThrough (data : Buffer) :
  Checksum.generate (passThroughEnd data) = inr (sha256Hex data).
Proof. by destruct data. Qed.

Lemma contents_passThrough (data : Buffer) :
  contents (passThroughEnd data) = data.
Proof.
  destruct data as [|b data]; [done|].
  unfold contents, passThroughEnd. simpl. by rewrite app_nil_r.
Qed.

Lemma upload_run (c : Client) (input : JsInput) (p : jsstr) (v : bool)
    (sha : option jsstr) (cto : jsstr) (env : Env) (q : jsstr) :
  normalizePath c p false = inr q ->
  run (BunnyCDNStorage.upload c input p v sha cto) env =
  match prepareUpload input v sha env [] with
  | (tr, inl e) => (tr, inl e)
  | (tr, inr (sha', stream')) =>
      let req := uploadRequest c q sha' cto stream' in
      (tr ++ [EvFetch req],
       match envFetch env req with
       | inl e => inl e
       | inr response => uploadResult c q sha' response
       end)
  end.
Proof.
  intros Hq.
  unfold run, BunnyCDNStorage.upload, prepareUpload, mbind, M_bind.
  rewrite Hq. simpl.
  destruct (resolveInput input env []) as [tr [e|stream]]; [done|].
  destruct (stampChecksum v sha stream env tr) as [tr' [e|[sha' stream']]];
    [done|].
  unfold fetch. destruct (envFetch env _) as [e|response]; [done|].
  unfold lift. by destruct (uploadResult c q sha' response).
Qed.

(** What the preparation leaves behind when it succeeds: no request, and
    either the caller's checksum and stream untouched, or the input read
    to its end into a buffer whose digest is the checksum to send. *)
Lemma prepareUpload_ok (input : JsInput) (v : bool) (sha : option jsstr)
    (env : Env) (tr : list Event) (sha' : option jsstr) (stream' : StreamValue) :
  prepareUpload input v sha env [] = (tr, inr (sha', stream')) ->
  forallb (fun ev => negb (isFetch ev)) tr = true
  /\ if v && negb (truthyOpt sha) then
       exists pre data,
         inputBytes env input = Some data
         /\ tr = pre ++ [EvBuffer data]
         /\ sha' = Some (sha256Hex data)
         /\ stream' = Stream (passThroughEnd data)
     else sha' = sha.
Proof.
  unfold prepareUpload, resolveInput, stampChecksum, mbind, M_bind.
  destruct (v && negb (truthyOpt sha)) eqn:Hv.
  - destruct input as [localPath|r| | | |]; stepM; try done.
    + destruct (failure (envReadFile env localPath)); [done|].
      rewrite generate_passThrough. stepM. intros [= <- <- <-].
      split; [done|].
      by exists [EvOpenRead localPath], (contents (envReadFile env localPath)).
    + destruct (failure r); [done|].
      rewrite generate_passThrough. stepM. intros [= <- <- <-].
      split; [done|]. by exists [], (contents r).
  - destruct input as [localPath|r| | | |]; stepM; try done;
      intros [= <- <- <-]; done.
Qed.

(** The preparation never issues a request, also when it throws. *)
Lemma prepareUpload_no_fetch (input : JsInput) (v : bool) (sha : option jsstr)
    (env : Env) :
  forallb (fun ev => negb (isFetch ev)) (prepareUpload input v sha env []).1 = true.
Proof.
  unfold prepareUpload, resolveInput, stampChecksum, mbind, M_bind.
  destruct (v && negb (truthyOpt sha)) eqn:Hv;
    destruct input as [localPath|r| | | |]; stepM; try done.
  - destruct (failure (envReadFile env localPath)); [done|].
    by rewrite generate_passThrough.
  - destruct (failure r); [done|].
    by rewrite generate_passThrough.
Qed.

(** ** The digest string *)

Section Digest.

Local Open Scope N_scope.

Lemma land_255_bound (x : N) : N.land x 0xff < 256.
Proof.
  change 0xff with (N.ones 8). rewrite N.land_ones.
  apply N.mod_lt. done.
Qed.

Lemma hexDigit_lower (d : N) : d < 16 -> isLowerHexDigit (hexDigit d) = true.
Proof.
  intros Hd. unfold isLowerHexDigit, hexDigit.
  destruct (N.ltb_spec d 10).
  - assert (H1 : (48 <=? 48 + d) = true) by (apply N.leb_le; lia).
    assert (H2 : (48 + d <=? 57) = true) by (apply N.leb_le; lia).
    by rewrite H1, H2.
  - assert (H1 : (97 <=? 87 + d) = true) by (apply N.leb_le; lia).
    assert (H2 : (87 + d <=? 102) = true) by (apply N.leb_le; lia).
    rewrite H1, H2. apply orb_true_r.
Qed.

Lemma toHex_lower (octets : list N) :
  Forall (fun o => o < 256) octets ->
  forallb isLowerHexDigit (toHex octets) = true.
Proof.
  induction 1 as [|o octets Ho _ IH]; [done|].
  unfold toHex. cbn [map concat app forallb]. fold (toHex octets).
  rewrite IH, !hexDigit_lower; [done | |].
  - change 15 with (N.ones 4). rewrite N.land_ones. by apply N.mod_lt.
  - rewrite N.shiftr_div_pow2. change (2 ^ 4) with 16.
    apply N.Div0.div_lt_upper_bound. lia.
Qed.

Lemma toHex_length (octets : list N) :
  length (toHex octets) = (2 * length octets)%nat.
Proof.
  induction octets as [|o octets IH]; [done|].
  unfold toHex in *. cbn [map concat app length]. rewrite IH. lia.
Qed.

Lemma bigEndian_bound (n : nat) (x : N) :
  Forall (fun o => o < 256) (Sha256.bigEndian n x).
Proof.
  revert x. induction n as [|n IH]; intros x; simpl; [constructor|].
  apply Forall_app. split; [apply IH|].
  constructor; [apply land_255_bound | constructor].
Qed.

Lemma bigEndian_length (n : nat) (x : N) : length (Sha256.bigEndian n x) = n.
Proof.
  revert x. induction n as [|n IH]; intros x; simpl; [done|].
  rewrite length_app, IH. simpl. lia.
Qed.

Lemma compress_length (h block : list N) :
  length h = 8%nat -> length (Sha256.compress h block) = 8%nat.
Proof.
  intros Hh. unfold Sha256.compress.
  rewrite length_map, length_combine, Hh. done.
Qed.

Lemma blocks_length (fuel : nat) (h words : list N) :
  length h = 8%nat -> length (Sha256.blocks fuel h words) = 8%nat.
Proof.
  revert h words. induction fuel as [|fuel IH]; intros h words Hh; [done|].
  simpl. destruct words; [done|]. by apply IH, compress_length.
Qed.

Lemma digest_octets (msg : list N) :
  length (Sha256.digest msg) = 32%nat
  /\ Forall (fun o => o < 256) (Sha256.digest msg).
Proof.
  unfold Sha256.digest.
  pose proof (blocks_length (length (Sha256.toWords (Sha256.pad msg)))
                Sha256.initialHash (Sha256.toWords (Sha256.pad msg)) eq_refl) as Hl.
  destruct (Sha256.blocks _ _ _) as [|a [|b [|c [|d [|e [|f [|g [|h [|]]]]]]]]];
    try discriminate Hl.
  split.
  - cbn [map concat]. rewrite !length_app, !bigEndian_length. done.
  - cbn [map concat]. rewrite !Forall_app.
    repeat split; try apply bigEndian_bound. constructor.
Qed.

(** The digest string is 64 lower-case hexadecimal digits. *)
Lemma sha256Hex_shape (data : Buffer) :
  length (sha256Hex data) = 64%nat
  /\ forallb isLowerHexDigit (sha256Hex data) = true.
Proof.
  unfold sha256Hex.
  destruct (digest_octets (map Byte.to_N data)) as [Hl Hb].
  split; [by rewrite toHex_length, Hl | by apply toHex_lower].
Qed.

End Digest.

(** The reference digests of FIPS 180-4 for [abc] and for the empty
    message. *)
Example sha256Hex_abc :
  sha256Hex (bytesOf "abc")
  = js "ba7816bf8f01cfea414140de5dae2223b00361a396177a9cb410ff61f20015ad".
Proof. vm_compute. reflexivity. Qed.

Example sha256Hex_empty :
  sha256Hex (bytesOf "")
  = js "e3b0c44298fc1c149afbf4c8996fb92427ae41e4649b934ca495991b7852b855".
Proof. vm_compute. reflexivity. Qed.

Example sha256Hex_two_blocks :
  sha256Hex (bytesOf "abcdbcdecdefdefgefghfghighijhijkijkljklmklmnlmnomnopnopq")
  = js "248d6a61d20638b8e5c026930c3e6039a33ce45964ff2167f6ecedd419db06c1".
Proof. vm_compute. reflexivity. Qed.

(** ** Uploads with an automatic checksum *)

Lemma no_fetch_not_elem (tr : list Event) (req : Request) :
  forallb (fun ev => negb (isFetch ev)) tr = true -> EvFetch req ∉ tr.
Proof.
  intros H Hin. rewrite forallb_forall in H.
  apply list_elem_of_In in Hin. by specialize (H _ Hin).
Qed.

Lemma sha256Hex_truthy (data : Buffer) : truthy (sha256Hex data) = true.
Proof.
  destruct (sha256Hex_shape data) as [Hl _].
  by destruct (sha256Hex data).
Qed.

Lemma uploadHeaders_checksum (c : Client) (sum cto : jsstr) :
  truthy sum = true ->
  uploadHeaders c (Some sum) cto !! "Checksum" = Some sum.
Proof.
  intros Hs. unfold uploadHeaders. rewrite Hs.
  destruct (truthy cto).
  - rewrite lookup_insert_ne; [|done]. apply lookup_insert_eq.
  - apply lookup_insert_eq.
Qed.

Lemma uploadHeaders_no_checksum (c : Client) (sha : option jsstr) (cto : jsstr) :
  truthyOpt sha = false ->
  uploadHeaders c sha cto !! "Checksum" = None.
Proof.
  intros Hs. unfold uploadHeaders, accessHeaders.
  assert (H : match sha with
              | Some sum =>
                  if truthy sum
                  then <["Checksum":=sum]> ({["AccessKey" := apiAccessKey c]} : gmap string jsstr)
                  else {["AccessKey" := apiAccessKey c]}
              | None => {["AccessKey" := apiAccessKey c]}
              end = {["AccessKey" := apiAccessKey c]}).
  { destruct sha as [sum|]; [|done]. simpl in Hs. by rewrite Hs. }
  rewrite H. destruct (truthy cto).
  - rewrite lookup_insert_ne; [|done]. by apply lookup_singleton_ne.
  - by apply lookup_singleton_ne.
Qed.

(** C6. In an upload with [validateChecksum] set and no checksum given
    (null or empty), any request issued comes right after the whole input
    has been read into a buffer; its body holds exactly the octets of the
    input, and its [Checksum] header is the SHA-256 digest of those octets
    as 64 lower-case hexadecimal digits.  Such a request is issued whenever
    the path normalizes and the input stream reads to its end. *)
Theorem upload_buffers_and_stamps_checksum
    (c : Client) (input : JsInput) (p : jsstr) (sha : option jsstr)
    (cto : jsstr) (env : Env) :
  truthyOpt sha = false ->
  (forall tr out req,
     run (BunnyCDNStorage.upload c input p true sha cto) env = (tr, out) ->
     EvFetch req ∈ tr ->
     exists pre data,
       inputBytes env input = Some data
       /\ tr = pre ++ [EvBuffer data; EvFetch req]
       /\ (exists s, body req = Some (Stream s) /\ contents s = data)
       /\ headers req !! "Checksum"
          = Some (toHex (Sha256.digest (Byte.to_N <$> data)))
       /\ length (toHex (Sha256.digest (Byte.to_N <$> data))) = 64
       /\ forallb isLowerHexDigit (toHex (Sha256.digest (Byte.to_N <$> data)))
          = true)
  /\ (forall q r,
        normalizePath c p false = inr q ->
        inputStream env input = Some r ->
        failure r = None ->
        exists req,
          EvFetch req ∈ (run (BunnyCDNStorage.upload c input p true sha cto) env).1).
Proof.
  intros Hsha. split.
  - intros tr out req Hrun Hin.
    destruct (normalizePath c p false) as [e|q] eqn:Hq.
    { exfalso. revert Hrun.
      unfold run, BunnyCDNStorage.upload, mbind, M_bind. rewrite Hq.
      intros [= <- _]. by apply elem_of_nil in Hin. }
    rewrite (upload_run _ _ _ _ _ _ _ _ Hq) in Hrun.
    pose proof (prepareUpload_no_fetch input true sha env) as Hnf.
    destruct (prepareUpload input true sha env []) as [tr0 [e|[sha' stream']]] eqn:Hprep.
    { injection Hrun as <- _. by apply no_fetch_not_elem with (req := req) in Hnf. }
    apply prepareUpload_ok in Hprep as [_ Hprep].
    rewrite Hsha in Hprep. simpl in Hprep.
    destruct Hprep as (pre & data & Hbytes & -> & -> & ->).
    simpl in Hrun. injection Hrun as <- _.
    apply elem_of_app in Hin as [Hin|Hin].
    { by apply no_fetch_not_elem with (req := req) in Hnf. }
    apply list_elem_of_singleton in Hin as [= ->].
    exists pre, data. split; [done|]. split; [by rewrite <- (assoc_L (++))|].
    split.
    { exists (passThroughEnd data). split; [done | apply contents_passThrough]. }
    destruct (sha256Hex_shape data) as [Hlen Hhex].
    split; [|done].
    apply uploadHeaders_checksum, sha256Hex_truthy.
  - intros q r Hq Hr Hfail.
    rewrite (upload_run _ _ _ _ _ _ _ _ Hq).
    unfold prepareUpload, resolveInput, stampChecksum. rewrite Hsha.
    destruct input as [localPath|r'| | | |]; try discriminate Hr;
      injection Hr as <-; stepM; rewrite Hfail, generate_passThrough; stepM;
      eexists;
      first [ apply list_elem_of_here
            | apply list_elem_of_further, list_elem_of_here
            | do 2 apply list_elem_of_further; apply list_elem_of_here ].
Qed.

(** C6 on a stream that delivers [ab] and then [c]: the request carries
    the reference digest of [abc]. *)
Lemma upload_buffers_and_stamps_checksum_witness :
  let c := newClient (js "zone") (js "key") None in
  let input := InStream (mkReadable [bytesOf "ab"; bytesOf "c"] None) in
  let req :=
    uploadRequest c (js "zone/hello.txt")
      (Some (js "ba7816bf8f01cfea414140de5dae2223b00361a396177a9cb410ff61f20015ad"))
      (js "") (Stream (passThroughEnd (bytesOf "abc"))) in
  let tr := [EvBuffer (bytesOf "abc"); EvFetch req] in
  truthyOpt None = false
  /\ run (BunnyCDNStorage.upload c input (js "/zone/hello.txt") true None (js ""))
         (stubEnv 201) = (tr, inr JNull)
  /\ EvFetch req ∈ tr
  /\ exists pre data,
       inputBytes (stubEnv 201) input = Some data
       /\ tr = pre ++ [EvBuffer data; EvFetch req]
       /\ (exists s, body req = Some (Stream s) /\ contents s = data)
       /\ headers req !! "Checksum"
          = Some (toHex (Sha256.digest (Byte.to_N <$> data)))
       /\ length (toHex (Sha256.digest (Byte.to_N <$> data))) = 64
       /\ forallb isLowerHexDigit (toHex (Sha256.digest (Byte.to_N <$> data)))
          = true.
Proof.
  intros c input req tr.
  assert (Hsha : truthyOpt None = false) by reflexivity.
  assert (Hrun : run (BunnyCDNStorage.upload c input (js "/zone/hello.txt")
                        true None (js "")) (stubEnv 201) = (tr, inr JNull))
    by (vm_compute; reflexivity).
  assert (Hin : EvFetch req ∈ tr)
    by (apply list_elem_of_further, list_elem_of_here).
  split; [exact Hsha | split; [exact Hrun | split; [exact Hin |]]].
  exact (proj1 (upload_buffers_and_stamps_checksum c input (js "/zone/hello.txt")
                  None (js "") (stubEnv 201) Hsha) tr (inr JNull) req Hrun Hin).
Defined.

(** ** The error taxonomy *)

Lemma mapResponseToException_kind (c : Client) (statusCode : Z) (path : jsstr) :
  mapResponseToException c statusCode path
  = errorOfKind c (kindOfStatus statusCode false) path.
Proof.
  unfold mapResponseToException, kindOfStatus.
  destruct (statusCode =? 404)%Z eqn:E404; [done|].
  destruct (statusCode =? 400)%Z eqn:E400.
  - apply Z.eqb_eq in E400 as ->. done.
  - by destruct (statusCode =? 401)%Z.
Qed.

Lemma uploadResult_kind (c : Client) (path : jsstr) (sha : option jsstr)
    (response : Response) :
  ok response = false ->
  uploadResult c path sha response
  = inl (errorOfKind c (kindOfStatus (status response) (truthyOpt sha)) path).
Proof.
  intros Hok. unfold uploadResult. rewrite Hok. simpl.
  destruct (status response =? 400)%Z eqn:E400.
  - apply Z.eqb_eq in E400. rewrite E400.
    destruct (truthyOpt sha); [done|]. simpl.
    by rewrite mapResponseToException_kind.
  - simpl. rewrite mapResponseToException_kind. unfold kindOfStatus.
    rewrite E400.
    by destruct (status response =? 404)%Z, (status response =? 401)%Z.
Qed.

Lemma sendsChecksum_uploadRequest (c : Client) (q : jsstr) (sha : option jsstr)
    (cto : jsstr) (stream : StreamValue) :
  sendsChecksum (uploadRequest c q sha cto stream) = truthyOpt sha.
Proof.
  unfold sendsChecksum. simpl.
  destruct (truthyOpt sha) eqn:E.
  - destruct sha as [sum|]; [|done]. simpl in E.
    rewrite (uploadHeaders_checksum c sum cto E). by apply bool_decide_eq_true_2.
  - rewrite (uploadHeaders_no_checksum c sha cto E).
    apply bool_decide_eq_false_2. by intros [? ?].
Qed.

(** A run of [upload] that issues a request: the path normalized, the
    preparation succeeded, the request came last and its answer decides
    the outcome. *)
Lemma upload_fetch_inv (c : Client) (input : JsInput) (p : jsstr) (v : bool)
    (sha : option jsstr) (cto : jsstr) (env : Env)
    (tr : list Event) (out : JsError + Json) (req : Request) :
  run (BunnyCDNStorage.upload c input p v sha cto) env = (tr, out) ->
  EvFetch req ∈ tr ->
  exists q pre sha' stream',
    normalizePath c p false = inr q
    /\ prepareUpload input v sha env [] = (pre, inr (sha', stream'))
    /\ tr = pre ++ [EvFetch req]
    /\ req = uploadRequest c q sha' cto stream'
    /\ out = match envFetch env req with
             | inl e => inl e
             | inr response => uploadResult c q sha' response
             end.
Proof.
  intros Hrun Hin.
  destruct (normalizePath c p false) as [e|q] eqn:Hq.
  { exfalso. revert Hrun.
    unfold run, BunnyCDNStorage.upload, mbind, M_bind. rewrite Hq.
    intros [= <- _]. by apply elem_of_nil in Hin. }
  rewrite (upload_run _ _ _ _ _ _ _ _ Hq) in Hrun.
  pose proof (prepareUpload_no_fetch input v sha env) as Hnf.
  destruct (prepareUpload input v sha env []) as [pre [e|[sha' stream']]] eqn:Hprep.
  { injection Hrun as <- _. by apply no_fetch_not_elem with (req := req) in Hnf. }
  simpl in Hrun, Hnf. injection Hrun as <- <-.
  apply elem_of_app in Hin as [Hin|Hin].
  { by apply no_fetch_not_elem with (req := req) in Hnf. }
  apply list_elem_of_singleton in Hin as [= ->].
  by exists q, pre, sha', stream'.
Qed.

(** The error thrown by an upload whose request is answered with a
    failure status. *)
Lemma upload_failure_error (c : Client) (input : JsInput) (p : jsstr) (v : bool)
    (sha : option jsstr) (cto : jsstr) (env : Env)
    (tr : list Event) (out : JsError + Json) (req : Request) (response : Response) :
  run (BunnyCDNStorage.upload c input p v sha cto) env = (tr, out) ->
  EvFetch req ∈ tr ->
  envFetch env req = inr response ->
  ok response = false ->
  exists q,
    normalizePath c p false = inr q
    /\ out = inl (errorOfKind c
                    (kindOfStatus (status response) (sendsChecksum req)) q).
Proof.
  intros Hrun Hin Hresp Hok.
  destruct (upload_fetch_inv _ _ _ _ _ _ _ _ _ _ Hrun Hin)
    as (q & pre & sha' & stream' & Hq & _ & _ & Hreq & ->).
  exists q. split; [done|].
  rewrite Hresp, (uploadResult_kind _ _ _ _ Hok), Hreq.
  by rewrite sendsChecksum_uploadRequest.
Qed.

(** C1. The status-to-error mapping follows the table: 404 gives NotFound
    with the path in its message, 401 gives Unauthorized with the zone
    name in its message, 400 gives ChecksumMismatch in an upload that sent
    a checksum and InvalidPath otherwise, every other status gives
    Unknown. *)
Theorem error_mapping_follows_taxonomy (c : Client) (statusCode : Z) (path : jsstr) :
  mapResponseToException c statusCode path
  = errorOfKind c (kindOfStatus statusCode false) path
  /\ (forall sha response,
        status response = statusCode -> ok response = false ->
        uploadResult c path sha response
        = inl (errorOfKind c (kindOfStatus statusCode (truthyOpt sha)) path))
  /\ (forall input p v sha cto env tr out req response,
        run (BunnyCDNStorage.upload c input p v sha cto) env = (tr, out) ->
        EvFetch req ∈ tr ->
        envFetch env req = inr response ->
        status response = statusCode -> ok response = false ->
        exists q,
          normalizePath c p false = inr q
          /\ out = inl (errorOfKind c
                          (kindOfStatus statusCode (sendsChecksum req)) q))
  /\ kindOfStatus 404 false = NotFound
  /\ kindOfStatus 401 false = Unauthorized
  /\ kindOfStatus 400 true = ChecksumMismatch
  /\ kindOfStatus 400 false = InvalidPath
  /\ (statusCode <> 404%Z -> statusCode <> 401%Z -> statusCode <> 400%Z ->
      forall present, kindOfStatus statusCode present = Unknown)
  /\ includes path (message (errorOfKind c NotFound path)) = true
  /\ includes (storageZoneName c) (message (errorOfKind c Unauthorized path)) = true.
Proof.
  split; [apply mapResponseToException_kind|].
  split. { intros sha response <- Hok. by apply uploadResult_kind. }
  split.
  { intros input p v sha cto env tr out req response Hrun Hin Hresp <- Hok.
    by apply (upload_failure_error _ _ _ _ _ _ _ _ _ _ _ Hrun Hin Hresp Hok). }
  repeat split.
  - intros H404 H401 H400 present. unfold kindOfStatus.
    apply Z.eqb_neq in H404, H401, H400. by rewrite H404, H401, H400.
  - exact (includes_tail path (js "File not found: ")).
  - exact (includes_tail (storageZoneName c)
             (js "Unauthorized access to storage zone: ")).
Qed.

(** C1 on an upload that sends a caller's checksum and is answered with
    400: the error is the checksum mismatch for the normalized path. *)
Lemma error_mapping_follows_taxonomy_witness :
  let c := newClient (js "zone") (js "key") None in
  let input := InStream (mkReadable [bytesOf "abc"] None) in
  let req := uploadRequest c (js "zone/x") (Some (js "00ff")) (js "")
               (Stream (mkReadable [bytesOf "abc"] None)) in
  let response := mkResponse 400 (inr JNull) (mkReadable [] None) in
  run (BunnyCDNStorage.upload c input (js "/zone/x") false (Some (js "00ff")) (js ""))
      (stubEnv 400)
  = ([EvFetch req], inl (checksumMismatchError (js "zone/x")))
  /\ EvFetch req ∈ [EvFetch req]
  /\ envFetch (stubEnv 400) req = inr response
  /\ status response = 400%Z
  /\ ok response = false
  /\ exists q,
       normalizePath c (js "/zone/x") false = inr q
       /\ inl (B := Json) (checksumMismatchError (js "zone/x"))
          = inl (errorOfKind c (kindOfStatus 400 (sendsChecksum req)) q).
Proof.
  intros c input req response.
  assert (Hrun : run (BunnyCDNStorage.upload c input (js "/zone/x") false
                        (Some (js "00ff")) (js "")) (stubEnv 400)
                 = ([EvFetch req], inl (checksumMismatchError (js "zone/x"))))
    by (vm_compute; reflexivity).
  assert (Hin : EvFetch req ∈ [EvFetch req]) by apply list_elem_of_here.
  assert (Hresp : envFetch (stubEnv 400) req = inr response) by reflexivity.
  assert (Hst : status response = 400%Z) by reflexivity.
  assert (Hok : ok response = false) by reflexivity.
  do 5 (split; [assumption|]).
  destruct (error_mapping_follows_taxonomy c 400 (js "zone/x")) as (_ & _ & Hup & _).
  exact (Hup input (js "/zone/x") false (Some (js "00ff")) (js "") (stubEnv 400)
           _ _ req response Hrun Hin Hresp Hst Hok).
Defined.

(** ** Context carried by the error messages *)

(** C8, as amended. The NotFound and ChecksumMismatch messages contain the
    request path and the Unauthorized message contains the zone name; the
    InvalidPath and Unknown messages are fixed texts, the same for every
    path and zone. *)
Theorem error_messages_context (c : Client) (statusCode : Z) (path : jsstr) :
  includes path (message (mapResponseToException c 404 path)) = true
  /\ includes path (message (checksumMismatchError path)) = true
  /\ includes (storageZoneName c) (message (mapResponseToException c 401 path)) = true
  /\ message (mapResponseToException c 400 path) = invalidPathMessage
  /\ (statusCode <> 404%Z -> statusCode <> 400%Z -> statusCode <> 401%Z ->
      message (mapResponseToException c statusCode path) = unknownMessage).
Proof.
  split; [exact (includes_tail path (js "File not found: "))|].
  split; [exact (includes_tail path (js "Checksum mismatch for "))|].
  split; [exact (includes_tail (storageZoneName c)
                   (js "Unauthorized access to storage zone: "))|].
  split; [reflexivity|].
  intros H404 H400 H401. unfold mapResponseToException.
  apply Z.eqb_neq in H404, H400, H401. by rewrite H404, H400, H401.
Qed.

Lemma error_messages_context_witness :
  let c := newClient (js "zone") (js "key") None in
  (500 <> 404 /\ 500 <> 400 /\ 500 <> 401)%Z
  /\ message (mapResponseToException c 500 (js "zone/x")) = unknownMessage.
Proof.
  intros c.
  assert (H : (500 <> 404 /\ 500 <> 400 /\ 500 <> 401)%Z) by lia.
  split; [exact H|]. destruct H as (H404 & H400 & H401).
  destruct (error_messages_context c 500 (js "zone/x")) as (_ & _ & _ & _ & Hunk).
  exact (Hunk H404 H400 H401).
Defined.

(** C8 as stated fails: under the zone [zone], the errors for the
    statuses 400 and 500 on the path [zone/x] name neither the path nor
    the zone. *)
Lemma error_messages_context_counterexample :
  let c := newClient (js "zone") (js "key") None in
  let path := js "zone/x" in
  normalizePath c (js "/zone/x") false = inr path
  /\ includes path (message (mapResponseToException c 400 path)) = false
  /\ includes (storageZoneName c) (message (mapResponseToException c 400 path)) = false
  /\ includes path (message (mapResponseToException c 500 path)) = false
  /\ includes (storageZoneName c) (message (mapResponseToException c 500 path)) = false.
Proof. repeat split; vm_compute; reflexivity. Qed.

(** ** Deleting a file *)

Lemma ok_iff (response : Response) :
  ok response = true <-> (200 <= status response <= 299)%Z.
Proof. unfold ok. rewrite andb_true_iff, !Z.leb_le. done. Qed.

(** C7. Once the path normalizes, [delete] issues its one request and
    returns the success flag of the answer, whatever the status: true
    exactly for a status from 200 to 299, so true on 200 and false on 404,
    with nothing thrown.  Every other operation throws the mapped error
    when its request is answered with a failure status. *)
Theorem delete_returns_success_flag
    (c : Client) (p q : jsstr) (env : Env) (response : Response) :
  normalizePath c p false = inr q ->
  envFetch env (plainRequest c "DELETE" q) = inr response ->
  run (BunnyCDNStorage.delete c p) env
  = ([EvFetch (plainRequest c "DELETE" q)], inr (ok response))
  /\ (ok response = true <-> (200 <= status response <= 299)%Z)
  /\ (status response = 200%Z -> ok response = true)
  /\ (status response = 404%Z -> ok response = false)
  /\ (forall env' r,
        envFetch env' (plainRequest c "DESCRIBE" q) = inr r -> ok r = false ->
        run (BunnyCDNStorage.get c p) env'
        = ([EvFetch (plainRequest c "DESCRIBE" q)],
           inl (mapResponseToException c (status r) q)))
  /\ (forall env' r localFilePath,
        envFetch env' (plainRequest c "GET" q) = inr r -> ok r = false ->
        run (BunnyCDNStorage.download c p localFilePath) env'
        = ([EvFetch (plainRequest c "GET" q)],
           inl (mapResponseToException c (status r) q))
        /\ run (BunnyCDNStorage.downloadAsStream c p) env'
           = ([EvFetch (plainRequest c "GET" q)],
              inl (mapResponseToException c (status r) q)))
  /\ (forall env' r qd,
        normalizePath c p true = inr qd ->
        envFetch env' (plainRequest c "DELETE" qd) = inr r -> ok r = false ->
        run (BunnyCDNStorage.deleteFolder c p) env'
        = ([EvFetch (plainRequest c "DELETE" qd)],
           inl (mapResponseToException c (status r) qd)))
  /\ (forall env' r qd,
        normalizePath c p true = inr qd ->
        envFetch env' (plainRequest c "PUT" qd) = inr r -> ok r = false ->
        run (BunnyCDNStorage.createFolder c p) env'
        = ([EvFetch (plainRequest c "PUT" qd)],
           inl (mapResponseToException c (status r) qd)))
  /\ (forall env' r qd,
        normalizePath c p true = inr qd ->
        envFetch env' (plainRequest c "GET" qd) = inr r -> ok r = false ->
        run (BunnyCDNStorage.list c p) env'
        = ([EvFetch (plainRequest c "GET" qd)],
           inl (mapResponseToException c (status r) qd)))
  /\ (forall input v sha cto env' tr out req r,
        run (BunnyCDNStorage.upload c input p v sha cto) env' = (tr, out) ->
        EvFetch req ∈ tr ->
        envFetch env' req = inr r -> ok r = false ->
        out = inl (errorOfKind c (kindOfStatus (status r) (sendsChecksum req)) q)).
Proof.
  intros Hq Hresp. split.
  { unfold run, BunnyCDNStorage.delete, mbind, M_bind, fetch.
    rewrite Hq. simpl. by rewrite Hresp. }
  split; [apply ok_iff|].
  split. { intros H. apply ok_iff. lia. }
  split. { intros H. unfold ok. by rewrite H. }
  split.
  { intros env' r Hr Hok.
    unfold run, BunnyCDNStorage.get, mbind, M_bind, fetch.
    rewrite Hq. simpl. by rewrite Hr, Hok. }
  split.
  { intros env' r localFilePath Hr Hok.
    unfold run, BunnyCDNStorage.download, BunnyCDNStorage.downloadAsStream,
      mbind, M_bind, fetch.
    rewrite Hq. simpl. by rewrite Hr, Hok. }
  split.
  { intros env' r qd Hqd Hr Hok.
    unfold run, BunnyCDNStorage.deleteFolder, mbind, M_bind, fetch.
    rewrite Hqd. simpl. by rewrite Hr, Hok. }
  split.
  { intros env' r qd Hqd Hr Hok.
    unfold run, BunnyCDNStorage.createFolder, mbind, M_bind, fetch.
    rewrite Hqd. simpl. by rewrite Hr, Hok. }
  split.
  { intros env' r qd Hqd Hr Hok.
    unfold run, BunnyCDNStorage.list, mbind, M_bind, fetch.
    rewrite Hqd. simpl. by rewrite Hr, Hok. }
  intros input v sha cto env' tr out req r Hrun Hin Hr Hok.
  destruct (upload_failure_error _ _ _ _ _ _ _ _ _ _ _ Hrun Hin Hr Hok)
    as (q' & Hq' & ->).
  rewrite Hq in Hq'. by injection Hq' as ->.
Qed.

(** C7 against a service that answers 404: [delete] returns false, and
    [deleteFolder] on the same path throws NotFound. *)
Lemma delete_returns_success_flag_witness :
  let c := newClient (js "zone") (js "key") None in
  let response := mkResponse 404 (inr JNull) (mkReadable [] None) in
  normalizePath c (js "/zone/old.txt") false = inr (js "zone/old.txt")
  /\ envFetch (stubEnv 404) (plainRequest c "DELETE" (js "zone/old.txt")) = inr response
  /\ run (BunnyCDNStorage.delete c (js "/zone/old.txt")) (stubEnv 404)
     = ([EvFetch (plainRequest c "DELETE" (js "zone/old.txt"))], inr false)
  /\ run (BunnyCDNStorage.deleteFolder c (js "/zone/old.txt")) (stubEnv 404)
     = ([EvFetch (plainRequest c "DELETE" (js "zone/old.txt/"))],
        inl (newError (js "File not found: zone/old.txt/"))).
Proof.
  intros c response.
  assert (Hq : normalizePath c (js "/zone/old.txt") false = inr (js "zone/old.txt"))
    by (vm_compute; reflexivity).
  assert (Hr : envFetch (stubEnv 404) (plainRequest c "DELETE" (js "zone/old.txt"))
               = inr response) by reflexivity.
  destruct (delete_returns_success_flag c (js "/zone/old.txt") (js "zone/old.txt")
              (stubEnv 404) response Hq Hr)
    as (Hdel & _ & _ & _ & _ & _ & Hfolder & _).
  split; [exact Hq | split; [exact Hr | split; [exact Hdel |]]].
  apply (Hfolder (stubEnv 404) response (js "zone/old.txt/")); reflexivity.
Defined.

Example delete_on_200 :
  run (BunnyCDNStorage.delete (newClient (js "zone") (js "key") None) (js "/zone/a"))
      (stubEnv 200)
  = ([EvFetch (plainRequest (newClient (js "zone") (js "key") None) "DELETE" (js "zone/a"))],
     inr true).
Proof. vm_compute. reflexivity. Qed.

(** ** Inputs that are neither a path nor a stream *)

(** C9, as amended. When the storage path normalizes and the input is
    not a string, is not null or undefined, and has no truthy [pipe]
    property, [upload] throws the invalid-input error before it opens,
    buffers or requests anything. *)
Theorem upload_rejects_pipeless_input
    (c : Client) (input : JsInput) (p : jsstr) (v : bool)
    (sha : option jsstr) (cto : jsstr) (q : jsstr) :
  normalizePath c p false = inr q ->
  asString input = None ->
  pipeOf input = inr false ->
  abortsWith (BunnyCDNStorage.upload c input p v sha cto) invalidInputError.
Proof.
  intros Hq Hstr Hpipe env.
  rewrite (upload_run _ _ _ _ _ _ _ _ Hq).
  unfold prepareUpload, resolveInput, mbind, M_bind.
  by rewrite Hstr, Hpipe.
Qed.

Lemma upload_rejects_pipeless_input_witness :
  let c := newClient (js "zone") (js "key") None in
  normalizePath c (js "/zone/x") false = inr (js "zone/x")
  /\ asString InOther = None
  /\ pipeOf InOther = inr false
  /\ abortsWith (BunnyCDNStorage.upload c InOther (js "/zone/x") true None (js ""))
                invalidInputError.
Proof.
  intros c.
  assert (Hq : normalizePath c (js "/zone/x") false = inr (js "zone/x"))
    by (vm_compute; reflexivity).
  split; [exact Hq | split; [reflexivity | split; [reflexivity |]]].
  exact (upload_rejects_pipeless_input c InOther (js "/zone/x") true None (js "")
           (js "zone/x") Hq eq_refl eq_refl).
Defined.

(** C9 as stated fails on inputs that are neither a string nor a byte
    stream: an object that merely has a truthy [pipe] property is taken
    for a stream and sent as the request body, and under a path outside
    the zone the error thrown is the path validation error. *)
Lemma upload_rejects_pipeless_input_counterexample :
  let c := newClient (js "zone") (js "key") None in
  run (BunnyCDNStorage.upload c InPipeObject (js "/zone/x") false None (js ""))
      (stubEnv 201)
  = ([EvFetch (uploadRequest c (js "zone/x") None (js "") PipeObject)], inr JNull)
  /\ run (BunnyCDNStorage.upload c InOther (js "/other/x") false None (js ""))
         (stubEnv 201)
     = ([], inl (pathValidationError c))
  /\ pathValidationError c <> invalidInputError.
Proof.
  intros c. split; [vm_compute; reflexivity|].
  split; [vm_compute; reflexivity|].
  vm_compute. intros H. discriminate H.
Qed.

(** On [null] and [undefined] the property read [input.pipe] itself
    throws, so the error is a [TypeError] and not the invalid-input
    error. *)
Example upload_null_input :
  let c := newClient (js "zone") (js "key") None in
  run (BunnyCDNStorage.upload c InNull (js "/zone/x") false None (js ""))
      (stubEnv 201)
  = ([], inl (mkError TypeError (js "Cannot read properties of null (reading 'pipe')")))
  /\ run (BunnyCDNStorage.upload c InUndefined (js "/zone/x") false None (js ""))
         (stubEnv 201)
     = ([], inl (mkError TypeError
                   (js "Cannot read properties of undefined (reading 'pipe')"))).
Proof. split; vm_compute; reflexivity. Qed.

(** ** The empty checksum *)

(** C10. An empty string as [sha256Checksum] runs exactly like [null]:
    same trace, same outcome.  Without validation the request then has no
    [Checksum] header and a 400 answer gives InvalidPath; with validation
    the digest of the input is computed and sent. *)
Theorem upload_empty_checksum_as_null
    (c : Client) (input : JsInput) (p : jsstr) (v : bool) (cto : jsstr)
    (env : Env) :
  run (BunnyCDNStorage.upload c input p v (Some (js "")) cto) env
  = run (BunnyCDNStorage.upload c input p v None cto) env
  /\ (forall tr out req,
        run (BunnyCDNStorage.upload c input p false (Some (js "")) cto) env
        = (tr, out) ->
        EvFetch req ∈ tr ->
        headers req !! "Checksum" = None
        /\ (forall r, envFetch env req = inr r -> status r = 400%Z ->
            exists q, normalizePath c p false = inr q
                      /\ out = inl (errorOfKind c InvalidPath q)))
  /\ (forall tr out req,
        run (BunnyCDNStorage.upload c input p true (Some (js "")) cto) env
        = (tr, out) ->
        EvFetch req ∈ tr ->
        exists data,
          inputBytes env input = Some data
          /\ headers req !! "Checksum" = Some (sha256Hex data)).
Proof.
  split; [|split].
  - destruct (normalizePath c p false) as [e|q] eqn:Hq.
    + unfold run, BunnyCDNStorage.upload, mbind, M_bind. by rewrite Hq.
    + rewrite !(upload_run _ _ _ _ _ _ _ _ Hq).
      unfold prepareUpload, stampChecksum, mbind, M_bind.
      destruct (resolveInput input env []) as [tr [e|stream]]; [done|].
      destruct v; [done|]. reflexivity.
  - intros tr out req Hrun Hin.
    destruct (upload_fetch_inv _ _ _ _ _ _ _ _ _ _ Hrun Hin)
      as (q & pre & sha' & stream' & Hq & Hprep & _ & -> & ->).
    apply prepareUpload_ok in Hprep as [_ Hsha]. simpl in Hsha. subst sha'.
    split; [by apply uploadHeaders_no_checksum|].
    intros r -> H400. exists q. split; [done|].
    assert (Hok : ok r = false) by (unfold ok; by rewrite H400).
    rewrite (uploadResult_kind _ _ _ _ Hok), H400. done.
  - intros tr out req Hrun Hin.
    destruct (upload_fetch_inv _ _ _ _ _ _ _ _ _ _ Hrun Hin)
      as (q & pre & sha' & stream' & Hq & Hprep & _ & -> & _).
    apply prepareUpload_ok in Hprep as [_ Hsha]. simpl in Hsha.
    destruct Hsha as (pre' & data & Hbytes & _ & -> & _).
    exists data. split; [done|].
    apply uploadHeaders_checksum, sha256Hex_truthy.
Qed.

(** C10 on an upload without validation, answered with 400: the empty
    checksum sends no header and the error is the generic one. *)
Lemma upload_empty_checksum_as_null_witness :
  let c := newClient (js "zone") (js "key") None in
  let input := InString (js "report.pdf") in
  let req := uploadRequest c (js "zone/r.pdf") None (js "")
               (Stream (mkReadable [bytesOf "abc"] None)) in
  let tr := [EvOpenRead (js "report.pdf"); EvFetch req] in
  let out := inl (B := Json) (errorOfKind c InvalidPath (js "zone/r.pdf")) in
  run (BunnyCDNStorage.upload c input (js "/zone/r.pdf") false (Some (js "")) (js ""))
      (stubEnv 400) = (tr, out)
  /\ EvFetch req ∈ tr
  /\ headers req !! "Checksum" = None
  /\ run (BunnyCDNStorage.upload c input (js "/zone/r.pdf") false None (js ""))
         (stubEnv 400) = (tr, out).
Proof.
  intros c input req tr out.
  assert (Hrun : run (BunnyCDNStorage.upload c input (js "/zone/r.pdf") false
                        (Some (js "")) (js "")) (stubEnv 400) = (tr, out))
    by (vm_compute; reflexivity).
  assert (Hin : EvFetch req ∈ tr)
    by (apply list_elem_of_further, list_elem_of_here).
  destruct (upload_empty_checksum_as_null c input (js "/zone/r.pdf") false (js "")
              (stubEnv 400)) as (Hsame & Hplain & _).
  split; [exact Hrun | split; [exact Hin |]].
  split; [exact (proj1 (Hplain tr out req Hrun Hin))|].
  rewrite <- Hsame. exact Hrun.
Defined.

(** * Further properties of the client *)

(** ** More on path normalization *)

Section MoreStrings.

Local Open Scope N_scope.

Lemma trimStart_suffix (s : jsstr) : trimStart s `suffix_of` s.
Proof.
  induction s as [|u s IH]; [done|]. simpl.
  destruct (isWhiteSpace u); [by apply suffix_cons_r | done].
Qed.

Lemma trimEnd_head (s : jsstr) : notSpace (head s) -> notSpace (head (trimEnd s)).
Proof.
  intros H. unfold trimEnd. rewrite head_reverse.
  destruct (trimStart (reverse s)) as [|x k] eqn:E; [done|].
  rewrite <- E.
  rewrite (last_suffix _ _ (trimStart_suffix (reverse s))); [|by rewrite E].
  by rewrite last_reverse.
Qed.

Lemma trim_idem (s : jsstr) : trim (trim s) = trim s.
Proof.
  apply trim_fixed; [|apply trim_last].
  unfold trim. apply trimEnd_head, trimStart_head.
Qed.

Lemma replaceBackslashes_space (u : N) :
  isWhiteSpace (if u =? backslash then slash else u) = isWhiteSpace u.
Proof.
  destruct (u =? backslash) eqn:E; [|done].
  apply N.eqb_eq in E. by subst u.
Qed.

Lemma trimStart_replaceBackslashes (s : jsstr) :
  trimStart (replaceBackslashes s) = replaceBackslashes (trimStart s).
Proof.
  unfold replaceBackslashes. induction s as [|u s IH]; [done|].
  rewrite fmap_cons. cbn [trimStart].
  rewrite replaceBackslashes_space.
  destruct (isWhiteSpace u); [exact IH | done].
Qed.

Lemma trim_replaceBackslashes (s : jsstr) :
  trim (replaceBackslashes s) = replaceBackslashes (trim s).
Proof.
  unfold trim, trimEnd.
  rewrite trimStart_replaceBackslashes.
  unfold replaceBackslashes at 1. rewrite <- fmap_reverse.
  fold (replaceBackslashes (reverse (trimStart s))).
  rewrite trimStart_replaceBackslashes.
  unfold replaceBackslashes. by rewrite fmap_reverse.
Qed.

Lemma replaceBackslashes_idem (s : jsstr) :
  replaceBackslashes (replaceBackslashes s) = replaceBackslashes s.
Proof. apply replaceBackslashes_fixed, replaceBackslashes_free. Qed.

Lemma cleanPath_replaceBackslashes (s : jsstr) :
  cleanPath (replaceBackslashes s) = cleanPath s.
Proof.
  unfold cleanPath. by rewrite trim_replaceBackslashes, replaceBackslashes_idem.
Qed.

Lemma cleanPath_trim (s : jsstr) : cleanPath (trim s) = cleanPath s.
Proof. unfold cleanPath. by rewrite trim_idem. Qed.

Lemma collapse_snoc (s : jsstr) :
  last s <> Some slash ->
  collapseSlashes (s ++ [slash]) = collapseSlashes s ++ [slash].
Proof.
  induction s as [|u [|v t] IH]; intros Hl.
  - done.
  - change ([u] ++ [slash]) with (u :: slash :: []).
    rewrite collapse_cons2.
    assert (Hu : (u =? slash) = false).
    { apply N.eqb_neq. intros ->. by apply Hl. }
    by rewrite Hu.
  - change ((u :: v :: t) ++ [slash]) with (u :: v :: (t ++ [slash])).
    rewrite !collapse_cons2.
    change (v :: t ++ [slash]) with ((v :: t) ++ [slash]).
    rewrite IH; [|done].
    by destruct ((u =? slash) && (v =? slash)).
Qed.

End MoreStrings.

(** X1. Whatever the mode, a path that normalization returns is not
    empty, has no backslash, no two slashes in a row, no slash in front
    and no blank at its end. *)
Theorem normalizePath_output_clean (c : Client) (p : jsstr) (d : bool) (q : jsstr) :
  normalizePath c p d = inr q ->
  q <> []
  /\ (backslash ∉ q)
  /\ includes (js "//") q = false
  /\ head q <> Some slash
  /\ notSpace (last q).
Proof.
  intros [Hstart ->]%normalizePath_inr.
  destruct (cleanPath_prefix_shape c p Hstart)
    as (rest & Hshape & Hbs & Hlast & Hhead).
  destruct (directoryStep_shape d (cleanPath p)) as (tail & Hdir & Htail).
  assert (Hne : cleanPath p <> []).
  { rewrite Hshape. by destruct (storageZoneName c). }
  assert (Hh : head (collapseSlashes (directoryStep d (cleanPath p)))
               = head (cleanPath p)).
  { rewrite collapse_head, Hdir. by destruct (cleanPath p). }
  split; [|split; [|split; [|split]]].
  - intros E. rewrite E in Hh. by destruct (cleanPath p).
  - intros Hin%collapse_elem. rewrite Hdir in Hin.
    apply elem_of_app in Hin as [Hin|Hin]; [done|].
    destruct Htail as [-> | ->]; [by apply elem_of_nil in Hin|].
    apply list_elem_of_singleton in Hin. discriminate.
  - apply collapse_free.
  - rewrite Hh. apply stripLeadingSlashes_head.
  - rewrite collapse_last, Hdir. destruct Htail as [-> | ->].
    + by rewrite app_nil_r.
    + rewrite last_snoc. by intros u [= <-].
Qed.

Lemma normalizePath_output_clean_witness :
  let c := newClient (js "zone") (js "key") None in
  normalizePath c (js " \\zone\a//b.txt ") false = inr (js "zone/a/b.txt")
  /\ js "zone/a/b.txt" <> []
  /\ (backslash ∉ js "zone/a/b.txt")
  /\ includes (js "//") (js "zone/a/b.txt") = false
  /\ head (js "zone/a/b.txt") <> Some slash
  /\ notSpace (last (js "zone/a/b.txt")).
Proof.
  intros c.
  assert (Hq : normalizePath c (js " \\zone\a//b.txt ") false
               = inr (js "zone/a/b.txt")) by (vm_compute; reflexivity).
  split; [exact Hq|].
  exact (normalizePath_output_clean c _ false _ Hq).
Defined.

(** X2. Separator style and surrounding blanks do not matter: a path
    written with backslashes normalizes like the same path written with
    slashes, and a path normalizes like its trimmed form. *)
Theorem normalizePath_separators_and_blanks (c : Client) (p : jsstr) (d : bool) :
  normalizePath c (replaceBackslashes p) d = normalizePath c p d
  /\ normalizePath c (trim p) d = normalizePath c p d.
Proof.
  unfold normalizePath.
  by rewrite cleanPath_replaceBackslashes, cleanPath_trim.
Qed.

(** X3. Directory mode differs from file mode only by the final slash:
    where file mode returns [q], directory mode returns [q] with one slash
    added unless [q] already ends with one; and where file mode throws,
    directory mode throws the same error. *)
Theorem normalizePath_directory_from_file (c : Client) (p : jsstr) :
  normalizePath c p true =
  match normalizePath c p false with
  | inl e => inl e
  | inr q => inr (withTrailingSlash q)
  end.
Proof.
  unfold normalizePath, withTrailingSlash. change (js "/") with [slash].
  destruct (startsWith (storageZoneName c ++ [slash]) (cleanPath p)); [|done].
  simpl. f_equal.
  destruct (endsWith [slash] (cleanPath p)) eqn:E.
  - assert (Hq : endsWith [slash] (collapseSlashes (cleanPath p)) = true).
    { apply endsWith_slash. rewrite collapse_last. by apply endsWith_slash. }
    by rewrite Hq.
  - assert (Hl : last (cleanPath p) <> Some slash).
    { intros H. apply endsWith_slash in H. congruence. }
    assert (Hq : endsWith [slash] (collapseSlashes (cleanPath p)) = false).
    { destruct (endsWith [slash] (collapseSlashes (cleanPath p))) eqn:E'; [|done].
      apply endsWith_slash in E'. rewrite collapse_last in E'. done. }
    rewrite Hq. by apply collapse_snoc.
Qed.

(** ** More on region resolution *)

Lemma getBaseAddress_default (code : jsstr) :
  isDefaultRegion code -> getBaseAddress code = defaultAddress.
Proof.
  unfold getBaseAddress. intros [-> | H]; [done|].
  apply toLowerCase_de in H. rewrite (bool_decide_eq_true_2 _ H).
  by rewrite orb_true_r.
Qed.

Lemma getBaseAddress_other (code : jsstr) :
  ~ isDefaultRegion code ->
  getBaseAddress code = js "https://" ++ code ++ js ".storage.bunnycdn.com/".
Proof.
  unfold getBaseAddress, isDefaultRegion. intros H.
  rewrite bool_decide_eq_false_2; [|tauto].
  rewrite bool_decide_eq_false_2; [done|].
  rewrite toLowerCase_de. tauto.
Qed.

Lemma isDefaultRegion_dec (code : jsstr) :
  isDefaultRegion code \/ ~ isDefaultRegion code.
Proof.
  unfold isDefaultRegion, isCasingOfDe.
  destruct (decide (code = js "")); [tauto|].
  destruct (decide (code = js "de")); [tauto|].
  destruct (decide (code = js "dE")); [tauto|].
  destruct (decide (code = js "De")); [tauto|].
  destruct (decide (code = js "DE")); tauto.
Qed.

(** X4. Two region codes resolve to the same base address only when they
    are the same code or both select the default endpoint; and only the
    empty code and the casings of [de] resolve to the default endpoint. *)
Theorem getBaseAddress_separates_regions (a b : jsstr) :
  (getBaseAddress a = defaultAddress <-> isDefaultRegion a)
  /\ (getBaseAddress a = getBaseAddress b ->
      a = b \/ (isDefaultRegion a /\ isDefaultRegion b)).
Proof.
  assert (Hiff : forall x, getBaseAddress x = defaultAddress <-> isDefaultRegion x).
  { intros x. split; [|apply getBaseAddress_default].
    intros H. destruct (isDefaultRegion_dec x) as [|Hn]; [done|].
    exfalso. rewrite (getBaseAddress_other x Hn) in H.
    apply (f_equal length) in H. rewrite !length_app in H.
    destruct x as [|u x]; [apply Hn; by left|]. simpl in H. lia. }
  split; [apply Hiff|].
  intros H.
  destruct (isDefaultRegion_dec a) as [Ha|Ha].
  { right. split; [done|]. apply Hiff. rewrite <- H. by apply Hiff. }
  destruct (isDefaultRegion_dec b) as [Hb|Hb].
  { exfalso. apply Ha, Hiff. rewrite H. by apply Hiff. }
  left. rewrite (getBaseAddress_other a Ha), (getBaseAddress_other b Hb) in H.
  apply app_inv_head in H. by apply app_inv_tail in H.
Qed.

Lemma getBaseAddress_separates_regions_witness :
  getBaseAddress (js "De") = getBaseAddress (js "")
  /\ (js "De" = js "" \/ (isDefaultRegion (js "De") /\ isDefaultRegion (js ""))).
Proof.
  assert (H : getBaseAddress (js "De") = getBaseAddress (js ""))
    by (vm_compute; reflexivity).
  split; [exact H|].
  exact (proj2 (getBaseAddress_separates_regions (js "De") (js "")) H).
Defined.

(** ** More on the checksum generator *)

Lemma fold_update (chunks : list Buffer) (hash : Buffer) :
  fold_left Checksum.update chunks hash = hash ++ concat chunks.
Proof.
  revert hash. induction chunks as [|d chunks IH]; intros hash; simpl.
  - by rewrite app_nil_r.
  - rewrite IH. unfold Checksum.update. by rewrite <- (assoc_L (++)).
Qed.

(** X5. [Checksum.generate] rejects with the stream's error when the
    stream breaks off; otherwise it resolves with the SHA-256 of all the
    octets delivered, as 64 lower-case hexadecimal digits, however the
    stream cuts them into chunks. *)
Theorem generate_digest_of_contents (stream : Readable) :
  (forall err, failure stream = Some err -> Checksum.generate stream = inl err)
  /\ (failure stream = None ->
      Checksum.generate stream = inr (sha256Hex (contents stream))
      /\ length (sha256Hex (contents stream)) = 64
      /\ forallb isLowerHexDigit (sha256Hex (contents stream)) = true
      /\ forall other,
           failure other = None -> contents other = contents stream ->
           Checksum.generate other = Checksum.generate stream).
Proof.
  assert (Hgen : forall s, failure s = None ->
                   Checksum.generate s = inr (sha256Hex (contents s))).
  { intros s Hs. unfold Checksum.generate. rewrite Hs, fold_update. done. }
  split.
  - intros err H. unfold Checksum.generate. by rewrite H.
  - intros Hnone. destruct (sha256Hex_shape (contents stream)) as [Hl Hh].
    repeat split; [by apply Hgen | done | done |].
    intros other Ho Hc. by rewrite !Hgen, Hc.
Qed.

Lemma generate_digest_of_contents_witness :
  let one := mkReadable [bytesOf "abc"] None in
  let cut := mkReadable [bytesOf "a"; bytesOf ""; bytesOf "bc"] None in
  failure one = None
  /\ failure cut = None
  /\ contents cut = contents one
  /\ Checksum.generate cut = Checksum.generate one
  /\ Checksum.generate one
     = inr (js "ba7816bf8f01cfea414140de5dae2223b00361a396177a9cb410ff61f20015ad").
Proof.
  intros one cut.
  destruct (generate_digest_of_contents one) as [_ H].
  destruct (H eq_refl) as (Hgen & _ & _ & Hsame).
  split; [reflexivity | split; [reflexivity | split; [reflexivity |]]].
  split; [exact (Hsame cut eq_refl eq_refl)|].
  rewrite Hgen. vm_compute. reflexivity.
Defined.

(** ** How each operation runs *)

Lemma newStorageObject_run (item : Json) (env : Env) (tr : list Event) :
  newStorageObject item env tr = (tr, decodeItem item).
Proof. by destruct item. Qed.

Lemma bind_run {A B} (m : M A) (k : A -> M B) (env : Env) (tr : list Event) :
  (m ≫= k) env tr
  = match m env tr with
    | (tr', inl e) => (tr', inl e)
    | (tr', inr x) => k x env tr'
    end.
Proof. reflexivity. Qed.

Lemma mapM_newStorageObject_run (items : list Json) (env : Env) (tr : list Event) :
  mapM newStorageObject items env tr
  = (tr, if existsb isNull items then inl nullItemError
         else inr (decoded <$> items)).
Proof.
  induction items as [|item items IH]; [done|].
  change (mapM newStorageObject (item :: items))
    with (newStorageObject item ≫= fun y =>
          mapM newStorageObject items ≫= fun k => mret (y :: k)).
  rewrite bind_run, newStorageObject_run.
  unfold decodeItem. cbn [existsb].
  destruct (isNull item); [done|]. cbn [orb].
  rewrite bind_run, IH.
  by destruct (existsb isNull items).
Qed.

Lemma jsonMap_run (responseJson : Json) (env : Env) (tr : list Event) :
  jsonMap responseJson newStorageObject env tr = (tr, decodeItems responseJson).
Proof.
  destruct responseJson; try done.
  apply mapM_newStorageObject_run.
Qed.

Ltac runPlain Hq :=
  unfold run, mbind, M_bind, fetch; rewrite Hq; cbn [lift throw mret M_ret];
  unfold answered;
  match goal with
  | |- context [envFetch ?env ?req] => destruct (envFetch env req) as [?|?r]
  end; [done|]; cbn beta iota;
  try match goal with
  | |- context [ok ?r] => destruct (ok r)
  end; try done.

Lemma delete_run (c : Client) (p q : jsstr) (env : Env) :
  normalizePath c p false = inr q ->
  run (BunnyCDNStorage.delete c p) env
  = ([EvFetch (plainRequest c "DELETE" q)],
     match envFetch env (plainRequest c "DELETE" q) with
     | inl e => inl e
     | inr r => inr (ok r)
     end).
Proof. intros Hq. unfold BunnyCDNStorage.delete. runPlain Hq. Qed.

Lemma get_run (c : Client) (p q : jsstr) (env : Env) :
  normalizePath c p false = inr q ->
  run (BunnyCDNStorage.get c p) env
  = ([EvFetch (plainRequest c "DESCRIBE" q)],
     answered c q (envFetch env (plainRequest c "DESCRIBE" q))
       (fun r => match json r with inl e => inl e | inr item => decodeItem item end)).
Proof.
  intros Hq. unfold BunnyCDNStorage.get. runPlain Hq.
  destruct (json r) as [e|item]; [done|]. cbn [lift throw mret M_ret].
  by rewrite newStorageObject_run.
Qed.

Lemma list_run (c : Client) (p q : jsstr) (env : Env) :
  normalizePath c p true = inr q ->
  run (BunnyCDNStorage.list c p) env
  = ([EvFetch (plainRequest c "GET" q)],
     answered c q (envFetch env (plainRequest c "GET" q))
       (fun r => match json r with inl e => inl e | inr j => decodeItems j end)).
Proof.
  intros Hq. unfold BunnyCDNStorage.list. runPlain Hq.
  destruct (json r) as [e|j]; [done|]. cbn [lift throw mret M_ret].
  by rewrite jsonMap_run.
Qed.

Lemma createFolder_run (c : Client) (p q : jsstr) (env : Env) :
  normalizePath c p true = inr q ->
  run (BunnyCDNStorage.createFolder c p) env
  = ([EvFetch (plainRequest c "PUT" q)],
     answered c q (envFetch env (plainRequest c "PUT" q)) json).
Proof.
  intros Hq. unfold BunnyCDNStorage.createFolder. runPlain Hq.
  by destruct (json r).
Qed.

Lemma deleteFolder_run (c : Client) (p q : jsstr) (env : Env) :
  normalizePath c p true = inr q ->
  run (BunnyCDNStorage.deleteFolder c p) env
  = ([EvFetch (plainRequest c "DELETE" q)],
     answered c q (envFetch env (plainRequest c "DELETE" q)) json).
Proof.
  intros Hq. unfold BunnyCDNStorage.deleteFolder. runPlain Hq.
  by destruct (json r).
Qed.

Lemma downloadAsStream_run (c : Client) (p q : jsstr) (env : Env) :
  normalizePath c p false = inr q ->
  run (BunnyCDNStorage.downloadAsStream c p) env
  = ([EvFetch (plainRequest c "GET" q)],
     answered c q (envFetch env (plainRequest c "GET" q))
       (fun r => inr (responseBody r))).
Proof. intros Hq. unfold BunnyCDNStorage.downloadAsStream. runPlain Hq. Qed.

Lemma download_run (c : Client) (p local q : jsstr) (env : Env) :
  normalizePath c p false = inr q ->
  run (BunnyCDNStorage.download c p local) env
  = match envFetch env (plainRequest c "GET" q) with
    | inl e => ([EvFetch (plainRequest c "GET" q)], inl e)
    | inr r =>
        if ok r
        then ([EvFetch (plainRequest c "GET" q); EvOpenWrite local;
               EvPipeline (responseBody r) local], inr local)
        else ([EvFetch (plainRequest c "GET" q)],
              inl (mapResponseToException c (status r) q))
    end.
Proof.
  intros Hq. unfold BunnyCDNStorage.download.
  unfold run, mbind, M_bind, fetch. rewrite Hq. cbn [lift throw mret M_ret].
  destruct (envFetch env _) as [e|r]; [done|].
  by destruct (ok r).
Qed.

Lemma rejected_run (c : Client) (p : jsstr) (d : bool) (e : JsError) :
  normalizePath c p d = inl e ->
  forall {A} (k : jsstr -> M A) env,
    run (normalizedPath ← lift (normalizePath c p d); k normalizedPath) env
    = ([], inl e).
Proof. intros He A k env. unfold run, mbind, M_bind. by rewrite He. Qed.

(** ** Listing and describing *)

(** X6. A listing answered with success and a JSON array without [null]
    entries returns one storage object for each entry, in the order of the
    array, each holding the fields of its entry; where an entry has string
    [Path] and [ObjectName], the full path of its object is their
    concatenation. *)
Theorem list_decodes_in_order
    (c : Client) (p q : jsstr) (env : Env) (r : Response) (items : list Json) :
  normalizePath c p true = inr q ->
  envFetch env (plainRequest c "GET" q) = inr r ->
  ok r = true ->
  json r = inr (JArray items) ->
  existsb isNull items = false ->
  run (BunnyCDNStorage.list c p) env
  = ([EvFetch (plainRequest c "GET" q)], inr (decoded <$> items))
  /\ length (decoded <$> items) = length items
  /\ forall i item dir name,
       items !! i = Some item ->
       fieldOf item "Path" = Some (JString dir) ->
       fieldOf item "ObjectName" = Some (JString name) ->
       exists o, (decoded <$> items) !! i = Some o
                 /\ fullPath o = Some (dir ++ name).
Proof.
  intros Hq Hr Hok Hj Hnull. split; [|split].
  - rewrite (list_run _ _ _ _ Hq), Hr. unfold answered.
    rewrite Hok, Hj. simpl. by rewrite Hnull.
  - apply length_fmap.
  - intros i item dir name Hi Hdir Hname. exists (decoded item). split.
    + by rewrite list_lookup_fmap, Hi.
    + unfold fullPath. simpl. by rewrite Hdir, Hname.
Qed.

Lemma list_decodes_in_order_witness :
  let c := newClient (js "zone") (js "key") None in
  let entry (name : string) :=
    JObject [("Path", JString (js "/zone/dir/")); ("ObjectName", JString (lit name));
             ("Length", JNumber 0)] in
  let items := [entry "a.txt"; entry "b.txt"; JString (js "stray")] in
  let r := mkResponse 200 (inr (JArray items)) (mkReadable [] None) in
  let env := mkEnv (fun _ => inr r) (fun _ => mkReadable [] None) in
  run (BunnyCDNStorage.list c (js "/zone/dir")) env
  = ([EvFetch (plainRequest c "GET" (js "zone/dir/"))], inr (decoded <$> items))
  /\ exists o, (decoded <$> items) !! 1%nat = Some o
               /\ fullPath o = Some (js "/zone/dir/" ++ js "b.txt").
Proof.
  intros c entry items r env.
  destruct (list_decodes_in_order c (js "/zone/dir") (js "zone/dir/") env r items)
    as (Hrun & _ & Hfull); try reflexivity.
  split; [exact Hrun|].
  exact (Hfull 1%nat (entry "b.txt") (js "/zone/dir/") (js "b.txt")
           eq_refl eq_refl eq_refl).
Defined.

(** X7. A success answer whose body does not decode makes the operation
    throw after its one request: [get] and [list] pass on the error of
    parsing the body; [get] throws a [TypeError] on a [null] document;
    [list] throws a [TypeError] on a document that is not an array and on
    an array with a [null] entry. *)
Theorem undecodable_answers_throw
    (c : Client) (p : jsstr) (env : Env) (r : Response) :
  ok r = true ->
  (forall q,
     normalizePath c p false = inr q ->
     envFetch env (plainRequest c "DESCRIBE" q) = inr r ->
     (forall e, json r = inl e ->
        run (BunnyCDNStorage.get c p) env
        = ([EvFetch (plainRequest c "DESCRIBE" q)], inl e))
     /\ (json r = inr JNull ->
         run (BunnyCDNStorage.get c p) env
         = ([EvFetch (plainRequest c "DESCRIBE" q)], inl nullItemError))
     /\ (forall item, json r = inr item -> isNull item = false ->
         run (BunnyCDNStorage.get c p) env
         = ([EvFetch (plainRequest c "DESCRIBE" q)], inr (decoded item))))
  /\ (forall q,
       normalizePath c p true = inr q ->
       envFetch env (plainRequest c "GET" q) = inr r ->
       (forall e, json r = inl e ->
          run (BunnyCDNStorage.list c p) env
          = ([EvFetch (plainRequest c "GET" q)], inl e))
       /\ (forall items, json r = inr (JArray items) ->
           existsb isNull items = true ->
           run (BunnyCDNStorage.list c p) env
           = ([EvFetch (plainRequest c "GET" q)], inl nullItemError))
       /\ (forall j, json r = inr j ->
           (forall items, j <> JArray items) ->
           exists msg,
             run (BunnyCDNStorage.list c p) env
             = ([EvFetch (plainRequest c "GET" q)], inl (mkError TypeError msg)))).
Proof.
  intros Hok. split.
  - intros q Hq Hr. rewrite (get_run _ _ _ _ Hq), Hr. unfold answered.
    rewrite Hok. repeat split.
    + intros e ->. done.
    + intros ->. done.
    + intros item -> Hn. unfold decodeItem. by rewrite Hn.
  - intros q Hq Hr. rewrite (list_run _ _ _ _ Hq), Hr. unfold answered.
    rewrite Hok. repeat split.
    + intros e ->. done.
    + intros items -> Hn. simpl. by rewrite Hn.
    + intros j -> Hj. destruct j; simpl; try (eexists; reflexivity).
      by destruct (Hj items).
Qed.

Lemma undecodable_answers_throw_witness :
  let c := newClient (js "zone") (js "key") None in
  let r := mkResponse 200 (inr (JArray [JObject []; JNull])) (mkReadable [] None) in
  let env := mkEnv (fun _ => inr r) (fun _ => mkReadable [] None) in
  ok r = true
  /\ run (BunnyCDNStorage.list c (js "/zone/")) env
     = ([EvFetch (plainRequest c "GET" (js "zone/"))], inl nullItemError).
Proof.
  intros c r env.
  assert (Hok : ok r = true) by reflexivity.
  split; [exact Hok|].
  destruct (undecodable_answers_throw c (js "/zone/") env r Hok) as [_ Hlist].
  destruct (Hlist (js "zone/") eq_refl eq_refl) as (_ & Hnull & _).
  exact (Hnull [JObject []; JNull] eq_refl eq_refl).
Defined.

(** ** Requests *)

Lemma fetches_app (a b : list Event) : fetches (a ++ b) = fetches a ++ fetches b.
Proof. apply omap_app. Qed.

Lemma fetches_none (tr : list Event) :
  forallb (fun ev => negb (isFetch ev)) tr = true -> fetches tr = [].
Proof.
  induction tr as [|ev tr IH]; [done|]. cbn [forallb].
  intros [Hev Htr]%andb_true_iff. destruct ev; try discriminate Hev;
    by apply IH.
Qed.

Lemma no_requests_wellFormed (c : Client) (meth : string) (p : jsstr) (d : bool)
    (tr : list Event) :
  fetches tr = [] -> requestsWellFormed c meth p d tr.
Proof.
  intros H. unfold requestsWellFormed. rewrite H. split; [simpl; lia|].
  intros req Hin. by apply elem_of_nil in Hin.
Qed.

Lemma plain_request_wellFormed (c : Client) (meth : string) (p q : jsstr)
    (d : bool) (tr : list Event) :
  normalizePath c p d = inr q ->
  fetches tr = [plainRequest c meth q] ->
  requestsWellFormed c meth p d tr.
Proof.
  intros Hq H. unfold requestsWellFormed. rewrite H. split; [simpl; lia|].
  intros req ->%list_elem_of_singleton. exists q. by repeat split.
Qed.

Lemma uploadHeaders_accessKey (c : Client) (sha : option jsstr) (cto : jsstr) :
  uploadHeaders c sha cto !! "AccessKey" = Some (apiAccessKey c).
Proof.
  unfold uploadHeaders, accessHeaders.
  destruct (truthy cto); [rewrite lookup_insert_ne; [|done]|];
    (destruct sha as [sum|]; [destruct (truthy sum)|]);
    try (rewrite lookup_insert_ne; [|done]); apply lookup_singleton_eq.
Qed.

Lemma upload_rejected (c : Client) (input : JsInput) (p : jsstr) (v : bool)
    (sha : option jsstr) (cto : jsstr) (env : Env) (e : JsError) :
  normalizePath c p false = inl e ->
  run (BunnyCDNStorage.upload c input p v sha cto) env = ([], inl e).
Proof.
  intros He. unfold run, BunnyCDNStorage.upload, mbind, M_bind. by rewrite He.
Qed.

Ltac rejectedOp He :=
  apply no_requests_wellFormed;
  unfold run, BunnyCDNStorage.delete, BunnyCDNStorage.get, BunnyCDNStorage.list,
    BunnyCDNStorage.createFolder, BunnyCDNStorage.deleteFolder,
    BunnyCDNStorage.download, BunnyCDNStorage.downloadAsStream, mbind, M_bind;
  by rewrite He.

(** X8. No operation ever issues more than one request, and any request
    it issues uses the operation's method, goes to the base address
    followed by the normalized path, and carries the access key in its
    [AccessKey] header. *)
Theorem operations_issue_one_keyed_request (c : Client) (p : jsstr) (env : Env) :
  requestsWellFormed c "DELETE" p false (run (BunnyCDNStorage.delete c p) env).1
  /\ requestsWellFormed c "DESCRIBE" p false (run (BunnyCDNStorage.get c p) env).1
  /\ requestsWellFormed c "GET" p true (run (BunnyCDNStorage.list c p) env).1
  /\ requestsWellFormed c "PUT" p true (run (BunnyCDNStorage.createFolder c p) env).1
  /\ requestsWellFormed c "DELETE" p true
       (run (BunnyCDNStorage.deleteFolder c p) env).1
  /\ requestsWellFormed c "GET" p false
       (run (BunnyCDNStorage.downloadAsStream c p) env).1
  /\ (forall local,
        requestsWellFormed c "GET" p false
          (run (BunnyCDNStorage.download c p local) env).1)
  /\ (forall input v sha cto,
        requestsWellFormed c "PUT" p false
          (run (BunnyCDNStorage.upload c input p v sha cto) env).1).
Proof.
  split; [|split; [|split; [|split; [|split; [|split; [|split]]]]]].
  - destruct (normalizePath c p false) as [e|q] eqn:Hq; [rejectedOp Hq|].
    rewrite (delete_run _ _ _ _ Hq). by apply plain_request_wellFormed with (q := q).
  - destruct (normalizePath c p false) as [e|q] eqn:Hq; [rejectedOp Hq|].
    rewrite (get_run _ _ _ _ Hq). by apply plain_request_wellFormed with (q := q).
  - destruct (normalizePath c p true) as [e|q] eqn:Hq; [rejectedOp Hq|].
    rewrite (list_run _ _ _ _ Hq). by apply plain_request_wellFormed with (q := q).
  - destruct (normalizePath c p true) as [e|q] eqn:Hq; [rejectedOp Hq|].
    rewrite (createFolder_run _ _ _ _ Hq).
    by apply plain_request_wellFormed with (q := q).
  - destruct (normalizePath c p true) as [e|q] eqn:Hq; [rejectedOp Hq|].
    rewrite (deleteFolder_run _ _ _ _ Hq).
    by apply plain_request_wellFormed with (q := q).
  - destruct (normalizePath c p false) as [e|q] eqn:Hq; [rejectedOp Hq|].
    rewrite (downloadAsStream_run _ _ _ _ Hq).
    by apply plain_request_wellFormed with (q := q).
  - intros local.
    destruct (normalizePath c p false) as [e|q] eqn:Hq; [rejectedOp Hq|].
    rewrite (download_run _ _ _ _ _ Hq).
    destruct (envFetch env _) as [e|r]; [|destruct (ok r)];
      by apply plain_request_wellFormed with (q := q).
  - intros input v sha cto.
    destruct (normalizePath c p false) as [e|q] eqn:Hq.
    { rewrite (upload_rejected _ _ _ _ _ _ _ _ Hq).
      by apply no_requests_wellFormed. }
    rewrite (upload_run _ _ _ _ _ _ _ _ Hq).
    pose proof (prepareUpload_no_fetch input v sha env) as Hnf.
    destruct (prepareUpload input v sha env []) as [pre [e|[sha' stream']]];
      simpl in Hnf; apply fetches_none in Hnf.
    { by apply no_requests_wellFormed. }
    unfold requestsWellFormed. cbn [fst]. rewrite fetches_app, Hnf.
    split; [simpl; lia|].
    intros req ->%list_elem_of_singleton. exists q.
    split; [done|]. split; [done|]. split; [done|].
    apply uploadHeaders_accessKey.
Qed.

(** X9. When [fetch] itself rejects, every operation throws that very
    error after its one request; [delete] too, which returns a boolean
    only for requests that were answered. *)
Theorem transport_errors_propagate (c : Client) (p : jsstr) (env : Env) (e : JsError) :
  (forall q,
     normalizePath c p false = inr q ->
     (envFetch env (plainRequest c "DELETE" q) = inl e ->
      run (BunnyCDNStorage.delete c p) env
      = ([EvFetch (plainRequest c "DELETE" q)], inl e))
     /\ (envFetch env (plainRequest c "DESCRIBE" q) = inl e ->
         run (BunnyCDNStorage.get c p) env
         = ([EvFetch (plainRequest c "DESCRIBE" q)], inl e))
     /\ (envFetch env (plainRequest c "GET" q) = inl e ->
         run (BunnyCDNStorage.downloadAsStream c p) env
         = ([EvFetch (plainRequest c "GET" q)], inl e)
         /\ forall local,
              run (BunnyCDNStorage.download c p local) env
              = ([EvFetch (plainRequest c "GET" q)], inl e)))
  /\ (forall q,
        normalizePath c p true = inr q ->
        (envFetch env (plainRequest c "GET" q) = inl e ->
         run (BunnyCDNStorage.list c p) env
         = ([EvFetch (plainRequest c "GET" q)], inl e))
        /\ (envFetch env (plainRequest c "PUT" q) = inl e ->
            run (BunnyCDNStorage.createFolder c p) env
            = ([EvFetch (plainRequest c "PUT" q)], inl e))
        /\ (envFetch env (plainRequest c "DELETE" q) = inl e ->
            run (BunnyCDNStorage.deleteFolder c p) env
            = ([EvFetch (plainRequest c "DELETE" q)], inl e)))
  /\ (forall input v sha cto tr out req,
        run (BunnyCDNStorage.upload c input p v sha cto) env = (tr, out) ->
        EvFetch req ∈ tr ->
        envFetch env req = inl e ->
        out = inl e).
Proof.
  split; [|split].
  - intros q Hq. repeat split.
    + intros He. by rewrite (delete_run _ _ _ _ Hq), He.
    + intros He. by rewrite (get_run _ _ _ _ Hq), He.
    + by rewrite (downloadAsStream_run _ _ _ _ Hq), H.
    + intros local. by rewrite (download_run _ _ _ _ _ Hq), H.
  - intros q Hq. repeat split; intros He.
    + by rewrite (list_run _ _ _ _ Hq), He.
    + by rewrite (createFolder_run _ _ _ _ Hq), He.
    + by rewrite (deleteFolder_run _ _ _ _ Hq), He.
  - intros input v sha cto tr out req Hrun Hin He.
    destruct (upload_fetch_inv _ _ _ _ _ _ _ _ _ _ Hrun Hin)
      as (q & pre & sha' & stream' & _ & _ & _ & _ & ->).
    by rewrite He.
Qed.

(** An environment in which the network is down. *)
Lemma transport_errors_propagate_witness :
  let c := newClient (js "zone") (js "key") None in
  let down := mkError SystemError (js "fetch failed") in
  let env := mkEnv (fun _ => inl down) (fun _ => mkReadable [] None) in
  normalizePath c (js "/zone/a") false = inr (js "zone/a")
  /\ envFetch env (plainRequest c "DELETE" (js "zone/a")) = inl down
  /\ run (BunnyCDNStorage.delete c (js "/zone/a")) env
     = ([EvFetch (plainRequest c "DELETE" (js "zone/a"))], inl down).
Proof.
  intros c down env.
  assert (Hq : normalizePath c (js "/zone/a") false = inr (js "zone/a"))
    by (vm_compute; reflexivity).
  assert (He : envFetch env (plainRequest c "DELETE" (js "zone/a")) = inl down)
    by reflexivity.
  split; [exact Hq | split; [exact He |]].
  destruct (transport_errors_propagate c (js "/zone/a") env down) as [Hfile _].
  destruct (Hfile (js "zone/a") Hq) as [Hdel _].
  exact (Hdel He).
Defined.

(** ** Downloads *)

(** X10. [download] touches the local file only after a success answer:
    a run that throws has neither opened nor written it, and a run that
    returns has issued its request, opened the local file, started copying
    the response body into it, in that order, and returns the handle of
    that file. *)
Theorem download_writes_only_on_success
    (c : Client) (p local : jsstr) (env : Env) :
  match run (BunnyCDNStorage.download c p local) env with
  | (tr, inl _) => forallb (fun ev => negb (isLocalWrite ev)) tr = true
  | (tr, inr handle) =>
      handle = local
      /\ exists q r,
           normalizePath c p false = inr q
           /\ envFetch env (plainRequest c "GET" q) = inr r
           /\ ok r = true
           /\ tr = [EvFetch (plainRequest c "GET" q); EvOpenWrite local;
                    EvPipeline (responseBody r) local]
  end.
Proof.
  destruct (normalizePath c p false) as [e|q] eqn:Hq.
  - unfold run, BunnyCDNStorage.download, mbind, M_bind. by rewrite Hq.
  - rewrite (download_run _ _ _ _ _ Hq).
    destruct (envFetch env _) as [e|r] eqn:Hr; [done|].
    destruct (ok r) eqn:Hok; [|done].
    split; [done|]. by exists q, r.
Qed.

(** ** Folder operations *)

(** X11. Every request of [list], [createFolder] and [deleteFolder] goes
    to an address that ends with a slash. *)
Theorem folder_requests_end_with_slash (c : Client) (p : jsstr) (env : Env) :
  forall req,
    req ∈ fetches (run (BunnyCDNStorage.list c p) env).1
    \/ req ∈ fetches (run (BunnyCDNStorage.createFolder c p) env).1
    \/ req ∈ fetches (run (BunnyCDNStorage.deleteFolder c p) env).1 ->
    endsWith (js "/") (url req) = true /\ body req = None.
Proof.
  intros req Hin.
  destruct (normalizePath c p true) as [e|q] eqn:Hq.
  { exfalso. revert Hin.
    unfold run, BunnyCDNStorage.list, BunnyCDNStorage.createFolder,
      BunnyCDNStorage.deleteFolder, mbind, M_bind.
    rewrite Hq. cbn. intros [H|[H|H]]; by apply elem_of_nil in H. }
  assert (Hlast : last q = Some slash).
  { apply normalizePath_inr in Hq as [_ ->].
    rewrite collapse_last. apply directoryStep_last. }
  assert (Hurl : forall meth, endsWith (js "/") (url (plainRequest c meth q)) = true).
  { intros meth. apply endsWith_slash. simpl. rewrite last_app. by rewrite Hlast. }
  rewrite (list_run _ _ _ _ Hq), (createFolder_run _ _ _ _ Hq),
    (deleteFolder_run _ _ _ _ Hq) in Hin.
  destruct Hin as [H|[H|H]]; apply list_elem_of_singleton in H as ->;
    by split.
Qed.

Lemma folder_requests_end_with_slash_witness :
  let c := newClient (js "zone") (js "key") (Some (js "ny")) in
  let req := plainRequest c "PUT" (js "zone/new/") in
  req ∈ fetches (run (BunnyCDNStorage.createFolder c (js "zone/new")) (stubEnv 201)).1
  /\ url req = js "https://ny.storage.bunnycdn.com/zone/new/"
  /\ endsWith (js "/") (url req) = true
  /\ body req = None.
Proof.
  intros c req.
  assert (Hin : req ∈ fetches
            (run (BunnyCDNStorage.createFolder c (js "zone/new")) (stubEnv 201)).1)
    by (vm_compute; apply list_elem_of_here).
  split; [exact Hin|]. split; [vm_compute; reflexivity|].
  exact (folder_requests_end_with_slash c (js "zone/new") (stubEnv 201) req
           (or_intror (or_introl Hin))).
Defined.

(** ** More on uploads *)

Lemma prepareUpload_passthrough (input : JsInput) (v : bool) (sha : option jsstr)
    (env : Env) (tr : list Event) (sha' : option jsstr) (stream' : StreamValue) :
  v && negb (truthyOpt sha) = false ->
  prepareUpload input v sha env [] = (tr, inr (sha', stream')) ->
  sha' = sha
  /\ forallb (fun ev => negb (isBuffer ev)) tr = true
  /\ (forall r, inputStream env input = Some r -> stream' = Stream r).
Proof.
  intros Hv. unfold prepareUpload, resolveInput, stampChecksum. rewrite Hv.
  destruct input as [localPath|r0| | | |]; stepM; try done;
    intros [= <- <- <-]; repeat split; try done; by intros r [= ->].
Qed.

Lemma uploadHeaders_contentType (c : Client) (sha : option jsstr) (cto : jsstr) :
  uploadHeaders c sha cto !! "Override-Content-Type"
  = if truthy cto then Some cto else None.
Proof.
  unfold uploadHeaders, accessHeaders.
  destruct (truthy cto); [apply lookup_insert_eq|].
  destruct sha as [sum|]; [destruct (truthy sum)|];
    try (rewrite lookup_insert_ne; [|done]); by apply lookup_singleton_ne.
Qed.

Lemma uploadHeaders_keys (c : Client) (sha : option jsstr) (cto : jsstr)
    (key : string) (value : jsstr) :
  uploadHeaders c sha cto !! key = Some value ->
  key = "AccessKey" \/ key = "Checksum" \/ key = "Override-Content-Type".
Proof.
  unfold uploadHeaders, accessHeaders. intros H.
  destruct (decide (key = "AccessKey")) as [|Ha]; [by left|].
  destruct (decide (key = "Checksum")) as [|Hc]; [by right; left|].
  destruct (decide (key = "Override-Content-Type")) as [|Ho]; [by right; right|].
  exfalso. revert H.
  destruct (truthy cto); [rewrite lookup_insert_ne; [|done]|];
    (destruct sha as [sum|]; [destruct (truthy sum)|]);
    try (rewrite lookup_insert_ne; [|done]);
    by rewrite lookup_singleton_ne.
Qed.

(** X12. An upload that is not asked to validate, or that is given a
    checksum, never buffers: any request it issues has the input stream
    itself as body, and carries the caller's checksum in the [Checksum]
    header when that checksum is a non-empty string, no such header
    otherwise. *)
Theorem upload_streams_without_buffering
    (c : Client) (input : JsInput) (p : jsstr) (v : bool) (sha : option jsstr)
    (cto : jsstr) (env : Env) (tr : list Event) (out : JsError + Json)
    (req : Request) :
  v && negb (truthyOpt sha) = false ->
  run (BunnyCDNStorage.upload c input p v sha cto) env = (tr, out) ->
  EvFetch req ∈ tr ->
  forallb (fun ev => negb (isBuffer ev)) tr = true
  /\ (forall r, inputStream env input = Some r -> body req = Some (Stream r))
  /\ headers req !! "Checksum" = (if truthyOpt sha then sha else None).
Proof.
  intros Hv Hrun Hin.
  destruct (upload_fetch_inv _ _ _ _ _ _ _ _ _ _ Hrun Hin)
    as (q & pre & sha' & stream' & Hq & Hprep & -> & -> & _).
  destruct (prepareUpload_passthrough _ _ _ _ _ _ _ Hv Hprep) as (-> & Hnb & Hs).
  split; [|split].
  - rewrite forallb_app, Hnb. done.
  - intros r Hr. simpl. by rewrite (Hs r Hr).
  - simpl. destruct (truthyOpt sha) eqn:E.
    + destruct sha as [sum|]; [|done]. by apply uploadHeaders_checksum.
    + by apply uploadHeaders_no_checksum.
Qed.

Lemma upload_streams_without_buffering_witness :
  let c := newClient (js "zone") (js "key") None in
  let r := mkReadable [bytesOf "ab"; bytesOf "c"] None in
  let req := uploadRequest c (js "zone/f") (Some (js "00ff")) (js "") (Stream r) in
  true && negb (truthyOpt (Some (js "00ff"))) = false
  /\ run (BunnyCDNStorage.upload c (InStream r) (js "zone/f") true
            (Some (js "00ff")) (js "")) (stubEnv 201)
     = ([EvFetch req], inr JNull)
  /\ EvFetch req ∈ [EvFetch req]
  /\ body req = Some (Stream r)
  /\ headers req !! "Checksum" = Some (js "00ff").
Proof.
  intros c r req.
  assert (Hv : true && negb (truthyOpt (Some (js "00ff"))) = false) by reflexivity.
  assert (Hrun : run (BunnyCDNStorage.upload c (InStream r) (js "zone/f") true
                        (Some (js "00ff")) (js "")) (stubEnv 201)
                 = ([EvFetch req], inr JNull)) by (vm_compute; reflexivity).
  assert (Hin : EvFetch req ∈ [EvFetch req]) by apply list_elem_of_here.
  destruct (upload_streams_without_buffering c (InStream r) (js "zone/f") true
              (Some (js "00ff")) (js "") (stubEnv 201) _ _ req Hv Hrun Hin)
    as (_ & Hbody & Hsum).
  split; [exact Hv | split; [exact Hrun | split; [exact Hin |]]].
  split; [exact (Hbody r eq_refl) | exact Hsum].
Defined.

(** X13. A request of [upload] has no header besides [AccessKey],
    [Checksum] and [Override-Content-Type], and it has the last one, with
    the caller's value, exactly when the content type override is not
    empty. *)
Theorem upload_header_set
    (c : Client) (input : JsInput) (p : jsstr) (v : bool) (sha : option jsstr)
    (cto : jsstr) (env : Env) (tr : list Event) (out : JsError + Json)
    (req : Request) :
  run (BunnyCDNStorage.upload c input p v sha cto) env = (tr, out) ->
  EvFetch req ∈ tr ->
  headers req !! "Override-Content-Type" = (if truthy cto then Some cto else None)
  /\ forall key value,
       headers req !! key = Some value ->
       key = "AccessKey" \/ key = "Checksum" \/ key = "Override-Content-Type".
Proof.
  intros Hrun Hin.
  destruct (upload_fetch_inv _ _ _ _ _ _ _ _ _ _ Hrun Hin)
    as (q & pre & sha' & stream' & _ & _ & _ & -> & _).
  split; [apply uploadHeaders_contentType|].
  intros key value. apply uploadHeaders_keys.
Qed.

Lemma upload_header_set_witness :
  let c := newClient (js "zone") (js "key") None in
  let r := mkReadable [bytesOf "abc"] None in
  let req := uploadRequest c (js "zone/f") None (js "text/plain") (Stream r) in
  run (BunnyCDNStorage.upload c (InStream r) (js "zone/f") false None
         (js "text/plain")) (stubEnv 201)
  = ([EvFetch req], inr JNull)
  /\ EvFetch req ∈ [EvFetch req]
  /\ headers req !! "Override-Content-Type" = Some (js "text/plain").
Proof.
  intros c r req.
  assert (Hrun : run (BunnyCDNStorage.upload c (InStream r) (js "zone/f") false None
                        (js "text/plain")) (stubEnv 201)
                 = ([EvFetch req], inr JNull)) by (vm_compute; reflexivity).
  assert (Hin : EvFetch req ∈ [EvFetch req]) by apply list_elem_of_here.
  split; [exact Hrun | split; [exact Hin |]].
  exact (proj1 (upload_header_set c (InStream r) (js "zone/f") false None
                  (js "text/plain") (stubEnv 201) _ _ req Hrun Hin)).
Defined.

(** X14. When validation is asked for without a checksum and the input
    stream breaks off while it is read into the buffer, [upload] throws
    the stream's error and issues no request. *)
Theorem upload_broken_stream_sends_nothing
    (c : Client) (input : JsInput) (p q : jsstr) (sha : option jsstr)
    (cto : jsstr) (env : Env) (r : Readable) (err : JsError) :
  normalizePath c p false = inr q ->
  truthyOpt sha = false ->
  inputStream env input = Some r ->
  failure r = Some err ->
  (run (BunnyCDNStorage.upload c input p true sha cto) env).2 = inl err
  /\ fetches (run (BunnyCDNStorage.upload c input p true sha cto) env).1 = [].
Proof.
  intros Hq Hsha Hr Hfail.
  rewrite (upload_run _ _ _ _ _ _ _ _ Hq).
  unfold prepareUpload, resolveInput, stampChecksum. rewrite Hsha.
  destruct input as [localPath|r'| | | |]; try discriminate Hr;
    injection Hr as <-; stepM; by rewrite Hfail.
Qed.

Lemma upload_broken_stream_sends_nothing_witness :
  let c := newClient (js "zone") (js "key") None in
  let gone := mkError SystemError (js "ENOENT: no such file or directory") in
  let env := mkEnv (fun _ => inr (mkResponse 201 (inr JNull) (mkReadable [] None)))
                   (fun _ => mkReadable [] (Some gone)) in
  let run1 := run (BunnyCDNStorage.upload c (InString (js "missing.bin"))
                     (js "zone/f") true None (js "")) env in
  normalizePath c (js "zone/f") false = inr (js "zone/f")
  /\ run1.2 = inl gone
  /\ fetches run1.1 = [].
Proof.
  intros c gone env run1.
  assert (Hq : normalizePath c (js "zone/f") false = inr (js "zone/f"))
    by (vm_compute; reflexivity).
  split; [exact Hq|].
  exact (upload_broken_stream_sends_nothing c (InString (js "missing.bin"))
           (js "zone/f") (js "zone/f") None (js "") env
           (mkReadable [] (Some gone)) gone Hq eq_refl eq_refl eq_refl).
Defined.

(** ** Staying inside the zone *)

(** X15. Under a zone name that, followed by its separator, has no two
    slashes in a row, every normalized path still begins with the zone
    name and a slash, so that every request stays inside the zone. *)
Theorem normalizePath_stays_in_zone (c : Client) (p : jsstr) (d : bool) (q : jsstr) :
  includes (js "//") (storageZoneName c ++ js "/") = false ->
  normalizePath c p d = inr q ->
  startsWith (storageZoneName c ++ js "/") q = true
  /\ exists rest, q = storageZoneName c ++ js "/" ++ rest.
Proof.
  intros Hfree [Hstart ->]%normalizePath_inr.
  destruct (cleanPath_prefix_shape c p Hstart) as (rest & Hshape & _).
  destruct (directoryStep_shape d (cleanPath p)) as (tail & Hdir & _).
  assert (Hk : exists k, collapseSlashes (directoryStep d (cleanPath p))
                         = (storageZoneName c ++ [slash]) ++ k).
  { rewrite Hdir, Hshape, <- (assoc_L (++)).
    change ((slash :: rest) ++ tail) with (slash :: (rest ++ tail)).
    by apply collapse_keeps_prefix. }
  destruct Hk as [k ->]. split.
  - apply startsWith_app.
  - exists k. by rewrite <- (assoc_L (++)).
Qed.

Lemma normalizePath_stays_in_zone_witness :
  let c := newClient (js "my-zone") (js "key") None in
  includes (js "//") (storageZoneName c ++ js "/") = false
  /\ normalizePath c (js "\my-zone\\\videos//clip.mp4") false
     = inr (js "my-zone/videos/clip.mp4")
  /\ startsWith (storageZoneName c ++ js "/") (js "my-zone/videos/clip.mp4") = true.
Proof.
  intros c.
  assert (Hz : includes (js "//") (storageZoneName c ++ js "/") = false)
    by (vm_compute; reflexivity).
  assert (Hq : normalizePath c (js "\my-zone\\\videos//clip.mp4") false
               = inr (js "my-zone/videos/clip.mp4")) by (vm_compute; reflexivity).
  split; [exact Hz | split; [exact Hq |]].
  exact (proj1 (normalizePath_stays_in_zone c _ false _ Hz Hq)).
Defined.
